(** * vds-gen: slice normalisation, virtual maps and reshape indexing

  A shallow embedding of [vdsgen/group.py] and
  [vdsgen/reshapevdsgenerator.py] (Python 2.7), followed by the
  properties of the embedded functions.

  Conventions.
  - Python integers are [Z]; [/] on integers is Python 2 floor division,
    which is [Z.div]; [%] is [Z.modulo].
  - Tuples and lists are [list]; a Python exception is the [Raise] branch of
    the result type [res].
  - Index keys mix integers, slices and [Ellipsis]; float indices, which the
    source also rewrites to slices, are outside the model.
  - h5py is outside the repository: whether one of its calls accepts its
    arguments is a parameter of the model ([h5py] below).  Of
    [VGroup.create_virtual_dataset], whose lines 48 and 50 are not well
    formed, only the selection arguments of lines 35-47 are embedded. *)

From stdpp Require Import base numbers option list strings gmap.

#[local] Open Scope Z_scope.

(** ** Python run-time pieces used by the sources *)

Module Py.

Inductive exn_class := ValueError | IndexError | TypeError | AttributeError.

Record exn := Exn { exn_cls : exn_class; exn_msg : string }.

Inductive res (A : Type) : Type :=
| Ok (a : A)
| Raise (e : exn).
#[global] Arguments Ok {A} a.
#[global] Arguments Raise {A} e.

#[global] Instance res_ret : MRet res := @Ok.
#[global] Instance res_bind : MBind res := λ A B f m,
  match m with Ok a => f a | Raise e => Raise e end.
#[global] Instance res_fmap : FMap res := λ A B f m,
  match m with Ok a => Ok (f a) | Raise e => Raise e end.

(** [raises m c]: the computation ends in an exception of class [c]. *)
Definition raises {A} (m : res A) (c : exn_class) : Prop :=
  ∃ msg, m = Raise (Exn c msg).

(** [t[ix]] on a tuple, for a non-negative index. *)
Definition tuple_getitem {A} (t : list A) (ix : nat) : res A :=
  match t !! ix with
  | Some v => Ok v
  | None => Raise (Exn IndexError "tuple index out of range")
  end.

(** [l[ix] = v] on a list, for a non-negative index. *)
Definition list_setitem {A} (l : list A) (ix : nat) (v : A) : res (list A) :=
  if decide (ix < length l)%nat then Ok (<[ix := v]> l)
  else Raise (Exn IndexError "list assignment index out of range").

(** Bounds of [l[lo:hi]] (step 1): negative indices count from the end,
    both are clamped to [0, len], and an upper bound below the lower one
    is raised to it. *)
Definition clamp_index (n i : Z) : Z :=
  if i <? 0 then Z.max (n + i) 0 else Z.min i n.

Definition slice_bounds (n : nat) (lo hi : option Z) : nat * nat :=
  let a := from_option (clamp_index (Z.of_nat n)) 0 lo in
  let b := from_option (clamp_index (Z.of_nat n)) (Z.of_nat n) hi in
  (Z.to_nat a, Z.to_nat (Z.max a b)).

(** [l[lo:hi]] *)
Definition list_getslice {A} (l : list A) (lo hi : option Z) : list A :=
  let '(a, b) := slice_bounds (length l) lo hi in
  take (b - a) (drop a l).

(** [l[lo:hi] = v] *)
Definition list_setslice {A} (l : list A) (lo hi : option Z) (v : list A)
  : list A :=
  let '(a, b) := slice_bounds (length l) lo hi in
  take a l ++ v ++ drop b l.

(** [sum(l)] and [any(l)] on a list of booleans. *)
Definition sum_bools (l : list bool) : Z :=
  foldr (λ b acc, Z.b2z b + acc) 0 l.

Definition any (l : list bool) : bool := existsb id l.

(** [l.index(True)] *)
Definition index_true (l : list bool) : res nat :=
  match list_find (λ b, b = true) l with
  | Some (i, _) => Ok i
  | None => Raise (Exn ValueError "True is not in list")
  end.

(** [(x,) * n]: no copies when [n] is zero or negative. *)
Definition tuple_repeat {A} (x : A) (n : Z) : list A :=
  replicate (Z.to_nat n) x.

(** [l[ix]] on a list, for a non-negative index. *)
Definition list_getitem {A} (l : list A) (ix : nat) : res A :=
  match l !! ix with
  | Some v => Ok v
  | None => Raise (Exn IndexError "list index out of range")
  end.

(** [t.index(x)] on a tuple of integers. *)
Definition tuple_index (t : list Z) (x : Z) : res nat :=
  match list_find (λ y, y = x) t with
  | Some (i, _) => Ok i
  | None => Raise (Exn ValueError "tuple.index(x): x not in tuple")
  end.

(** Computations that contain a [while] loop run on fuel: [OutOfFuel]
    stands for a loop that has not ended within the given number of
    iterations. *)
Inductive run (A : Type) : Type :=
| Return (a : A)
| Throw (e : exn)
| OutOfFuel.
#[global] Arguments Return {A} a.
#[global] Arguments Throw {A} e.
#[global] Arguments OutOfFuel {A}.

#[global] Instance run_ret : MRet run := @Return.
#[global] Instance run_bind : MBind run := λ A B f m,
  match m with
  | Return a => f a
  | Throw e => Throw e
  | OutOfFuel => OutOfFuel
  end.

#[global] Instance run_fmap : FMap run := λ A B f m,
  match m with
  | Return a => Return (f a)
  | Throw e => Throw e
  | OutOfFuel => OutOfFuel
  end.

Definition lift {A} (m : res A) : run A :=
  match m with Ok a => Return a | Raise e => Throw e end.

(** A [for] loop that threads one value through its iterations. *)
Fixpoint foldlM `{MBind M, MRet M} {A B} (f : A → B → M A) (a : A)
    (l : list B) : M A :=
  match l with
  | [] => mret a
  | x :: l' => a' ← f a x; foldlM f a' l'
  end.

End Py.

Import Py.

(** ** group.py *)

Module group.

(** [h5s.UNLIMITED], h5py's marker for an unbounded axis
    ([H5S_UNLIMITED], the largest 64-bit unsigned value). *)
Definition UNLIMITED : Z := 18446744073709551615.

(** A Python [slice(start, stop, step)]; [None] marks an unset part. *)
Record pyslice := Slice {
  start : option Z;
  stop : option Z;
  step : option Z
}.

(** One entry of an index key. *)
Inductive key_item :=
| KInt (i : Z)
| KSlice (s : pyslice)
| KEllipsis.

(** The argument tuple [key] of [__getitem__(self, *key)]:
    - [Args items]: the entries are the arguments themselves
      ([d[x]] for a single non-tuple [x] is [Args [x]]);
    - [Packed items rest]: the first argument is itself a tuple of entries,
      followed by [rest] further arguments ([d[a, b, c]] is
      [Packed [a; b; c] 0]). *)
Inductive pykey :=
| Args (items : list key_item)
| Packed (items : list key_item) (rest : nat).

Definition key_len (key : pykey) : Z :=
  match key with
  | Args items => Z.of_nat (length items)
  | Packed _ rest => 1 + Z.of_nat rest
  end.

(** The class of a descriptor object, which selects [__getitem__]. *)
Inductive dclass := VirtualSource | VirtualTarget.

Record DatasetContainer := {
  cls : dclass;
  path : string;
  key : string;
  shape : list Z;
  slice_list : list pyslice;
  maxshape : list Z
}.

(** [DatasetContainer.__init__]; [dtype] is accepted and not stored. *)
Definition DatasetContainer__init__ (c : dclass) (path key : string) (shape : list Z)
    (maxshape : option (list (option Z))) : DatasetContainer :=
  {| cls := c;
     path := path;
     key := key;
     shape := shape;
     slice_list := (λ ix, Slice (Some 0) (Some ix) (Some 1)) <$> shape;
     maxshape :=
       match maxshape with
       | None => shape
       | Some ms => (λ ix, from_option id UNLIMITED ix) <$> ms
       end |}.

(** Integers become one-element slices. *)
Definition int_to_slice (ix : key_item) : key_item :=
  match ix with
  | KInt i => KSlice (Slice (Some i) (Some (i + 1)) (Some 1))
  | _ => ix
  end.

Definition is_ellipsis (ix : key_item) : bool :=
  match ix with KEllipsis => true | _ => false end.

(** Lines 101-113: the entries of [key] are written over [tmp.slice_list]. *)
Definition apply_key (tmp_slice_list key : list key_item)
  : res (list key_item) :=
  let ellipsis_test := is_ellipsis <$> key in
  if 1 <? sum_bools ellipsis_test then
    Raise (Exn ValueError "Only use of one Ellipsis(...) supported.")
  else if negb (any ellipsis_test) then
    Ok (list_setslice tmp_slice_list None (Some (Z.of_nat (length key))) key)
  else if any ellipsis_test && negb (length key =? 1)%nat then
    ellipsis_idx ← index_true ellipsis_test;
    ellipsis_idx_back ← index_true (reverse ellipsis_test);
    let tmp1 :=
      list_setslice tmp_slice_list (Some 0) (Some (Z.of_nat ellipsis_idx))
        (list_getslice key (Some 0) (Some (Z.of_nat ellipsis_idx))) in
    if (ellipsis_idx <=? ellipsis_idx_back)%nat then
      Ok (list_setslice tmp1 (Some (- Z.of_nat ellipsis_idx_back)) None
            (list_getslice key (Some (- Z.of_nat ellipsis_idx_back)) None))
    else Ok tmp1
  else Ok tmp_slice_list.

(** [self.shape[ix] + v if v < 0 else v] *)
Definition wrap_negative (self_shape : list Z) (ix : nat) (v : Z) : res Z :=
  if v <? 0 then L ← tuple_getitem self_shape ix; mret (L + v) else mret v.

(** [d if v is None else v], where [d] is only evaluated when needed. *)
Definition or_default (v : option Z) (d : res Z) : res Z :=
  match v with None => d | Some x => mret x end.

(** Body of the loop of lines 116-141 for one slice: the new axis length
    and the resolved slice. *)
Definition resolve_slice (self_shape : list Z) (ix : nat) (sl : pyslice)
  : res (Z * pyslice) :=
  let step := default 1 (step sl) in
  if 0 <? step then
    start ← or_default (start sl) (mret 0);
    stop ← or_default (stop sl) (tuple_getitem self_shape ix);
    start ← wrap_negative self_shape ix start;
    stop ← wrap_negative self_shape ix stop;
    let n := if start <? stop then (stop - start + step - 1) / step else 0 in
    mret (n, Slice (Some start) (Some stop) (Some step))
  else if step <? 0 then
    stop ← or_default (stop sl) (mret 0);
    start ← or_default (start sl) (tuple_getitem self_shape ix);
    start ← wrap_negative self_shape ix start;
    stop ← wrap_negative self_shape ix stop;
    let n := if stop <? start then (start - stop - step - 1) / - step else 0 in
    mret (n, Slice (Some start) (Some stop) (Some step))
  else Raise (Exn IndexError "A step of 0 is not valid").

(** [sl.step] and the like on an entry of [tmp.slice_list]: only a slice
    has these attributes. *)
Definition resolve_entry (self_shape : list Z) (ix : nat) (sl : key_item)
  : res (Z * pyslice) :=
  match sl with
  | KSlice s => resolve_slice self_shape ix s
  | KInt _ => Raise (Exn AttributeError "'int' object has no attribute 'step'")
  | KEllipsis =>
      Raise (Exn AttributeError "'ellipsis' object has no attribute 'step'")
  end.

(** The loop of lines 116-141 from index [ix] on. *)
Fixpoint resolve_loop (self_shape : list Z) (ix : nat) (l : list key_item)
  : res (list (Z * pyslice)) :=
  match l with
  | [] => mret []
  | sl :: rest =>
      r ← resolve_entry self_shape ix sl;
      rs ← resolve_loop self_shape (S ix) rest;
      mret (r :: rs)
  end.

(** Lines 93-99: the rank check, the unwrapping of a tuple argument and the
    rewriting of integers. *)
Definition unwrap_key (rank : Z) (key : pykey) : res (list key_item) :=
  if rank - key_len key <? 0 then
    Raise (Exn IndexError "Index rank is greater than dataset rank")
  else
    match key with
    | Args [] => Raise (Exn IndexError "tuple index out of range")
    | Args items => mret (int_to_slice <$> items)
    | Packed items _ => mret (int_to_slice <$> items)
    end.

(** [DatasetContainer._parse_slicing]; [tmp] is the deep copy of [self],
    passed along explicitly. *)
Definition _parse_slicing (self : DatasetContainer) (key : pykey)
  : res DatasetContainer :=
  let tmp := self in
  let rank := Z.of_nat (length (shape self)) in
  key ← unwrap_key rank key;
  tmp_slice_list ← apply_key (KSlice <$> slice_list tmp) key;
  resolved ← resolve_loop (shape self) 0 tmp_slice_list;
  mret {| cls := cls tmp;
          path := path tmp;
          key := group.key tmp;
          shape := fst <$> resolved;
          slice_list := snd <$> resolved;
          maxshape := maxshape tmp |}.

(** [VirtualSource.__getitem__] and [VirtualTarget.__getitem__], selected
    by the class of [self]. *)
Definition __getitem__ (self : DatasetContainer) (key : pykey)
  : res DatasetContainer :=
  match cls self with
  | VirtualSource => _parse_slicing self key
  | VirtualTarget =>
      tmp ← _parse_slicing self key;
      mret {| cls := cls tmp;
              path := path tmp;
              key := group.key tmp;
              shape := shape self;
              slice_list := slice_list tmp;
              maxshape := maxshape tmp |}
  end.

(** Parameters of one [select_hyperslab] call. *)
Record hyperslab := {
  hs_start : list (option Z);
  hs_count : list Z;
  hs_stride : list (option Z);
  hs_block : option (list Z)
}.

(** An [h5s] simple dataspace; [ds_selection] is [None] while the whole
    space is selected, as it is after [create_simple]. *)
Record dataspace := {
  ds_shape : list Z;
  ds_maxshape : list Z;
  ds_selection : option hyperslab
}.

(** h5py is a library, not a part of the repository.  Its two calls in
    [VirtualMap.__init__] are modelled by what they do to a dataspace when
    h5py accepts their arguments; whether it accepts them, and the
    exception it raises when it does not, are parameters. *)
Record h5py := {
  create_simple_error : list Z → list Z → option exn;
  select_hyperslab_error : dataspace → hyperslab → option exn
}.

(** [h5s.create_simple(dims, maxdims)] *)
Definition create_simple (h5 : h5py) (dims maxdims : list Z)
  : res dataspace :=
  match create_simple_error h5 dims maxdims with
  | Some e => Raise e
  | None =>
      mret {| ds_shape := dims; ds_maxshape := maxdims; ds_selection := None |}
  end.

(** [space.select_hyperslab(start=, count=, stride=, block=)]: the state of
    [space] after the call. *)
Definition select_hyperslab (h5 : h5py) (space : dataspace)
    (sel : hyperslab) : res dataspace :=
  match select_hyperslab_error h5 space sel with
  | Some e => Raise e
  | None =>
      mret {| ds_shape := ds_shape space;
              ds_maxshape := ds_maxshape space;
              ds_selection := Some sel |}
  end.

Record VirtualMap := {
  src : DatasetContainer;
  dtype : string;
  target : DatasetContainer;
  block_shape : option (list Z);
  src_dspace : dataspace
}.

(** Lines 186-199: the block shape from the two ranks. *)
Definition pad_block_shape (src target : DatasetContainer)
  : option (list Z) :=
  let rank_def :=
    Z.of_nat (length (shape target)) - Z.of_nat (length (shape src)) in
  if 0 <? rank_def then
    if (length (shape src) =? 1)%nat then None
    else Some (tuple_repeat 1 rank_def ++ shape src)
  else if rank_def <? 0 then
    if (length (shape target) =? 1)%nat then None
    else Some (tuple_repeat 1 rank_def ++ shape target)
  else Some (shape src).

(** Lines 203-215: the arguments of the [select_hyperslab] call of line
    216; its block is [self.block_shape] as line 213 leaves it. *)
Definition source_selection (src : DatasetContainer)
    (block_shape : option (list Z)) : res hyperslab :=
  let start_idx := start <$> slice_list src in
  let stride_idx := step <$> slice_list src in
  '(count_idx, block_shape) ←
    (if any ((λ ix, ix =? UNLIMITED) <$> maxshape src) then
       let count_idx := replicate (length stride_idx) 1 in
       unlimited_index ← tuple_index (maxshape src) UNLIMITED;
       count_idx ← list_setitem count_idx unlimited_index UNLIMITED;
       bs ← match block_shape with
            | Some b => mret b
            | None =>
                Raise (Exn TypeError "'NoneType' object is not iterable")
            end;
       bs ← list_setitem bs unlimited_index 1;
       mret (count_idx, Some bs)
     else mret (replicate (length stride_idx) 1, block_shape));
  mret {| hs_start := start_idx;
          hs_count := count_idx;
          hs_stride := stride_idx;
          hs_block := block_shape |}.

(** [VirtualMap.__init__] *)
Definition VirtualMap__init__ (h5 : h5py)
    (virtual_source virtual_target : DatasetContainer) (dtype : string)
  : res VirtualMap :=
  src ← __getitem__ virtual_source (Args [KEllipsis]);
  target ← __getitem__ virtual_target (Args [KEllipsis]);
  let block_shape := pad_block_shape src target in
  src_dspace ← create_simple h5 (shape src) (maxshape src);
  sel ← source_selection src block_shape;
  src_dspace ← select_hyperslab h5 src_dspace sel;
  mret {| src := src;
          dtype := dtype;
          target := target;
          block_shape := hs_block sel;
          src_dspace := src_dspace |}.

(** Lines 35-47 of [VGroup.create_virtual_dataset]: the arguments of the
    [select_hyperslab] call on the virtual dataspace for one map. *)
Definition target_hyperslab (VM : VirtualMap) : res hyperslab :=
  let virt_start_idx := start <$> slice_list (target VM) in
  let virt_stride_index := step <$> slice_list (target VM) in
  count_idx ←
    (if any ((λ ix, ix =? UNLIMITED) <$> maxshape (target VM)) then
       let count_idx := replicate (length virt_stride_index) 1 in
       unlimited_index ← tuple_index (maxshape (target VM)) UNLIMITED;
       list_setitem count_idx unlimited_index UNLIMITED
     else mret (replicate (length virt_stride_index) 1));
  mret {| hs_start := virt_start_idx;
          hs_count := count_idx;
          hs_stride := virt_stride_index;
          hs_block := block_shape VM |}.

End group.

(** ** group.py on a store of objects

  [_parse_slicing] works on [copy(self)], a deep copy, and mutates the
  copy's [slice_list] in place.  To state what this does to the original
  object the same code is written over a store in which a descriptor
  object refers to its [slice_list], a mutable list object, by location. *)

Module store.
Import group.

Definition loc := positive.

(** A descriptor object; tuples and strings are immutable values, the
    slice list is a reference. *)
Record object := {
  o_cls : dclass;
  o_path : string;
  o_key : string;
  o_shape : list Z;
  o_slice_list : loc;
  o_maxshape : list Z
}.

Record store := {
  objects : gmap loc object;
  lists : gmap loc (list key_item)
}.

(** A step either gets stuck (a dangling reference, [None]) or gives an
    outcome and the new store. *)
Definition M (A : Type) : Type := store → option (res A * store).

#[global] Instance M_ret : MRet M := λ A a σ, Some (Ok a, σ).
#[global] Instance M_bind : MBind M := λ A B f m σ,
  match m σ with
  | Some (Ok a, σ') => f a σ'
  | Some (Raise e, σ') => Some (Raise e, σ')
  | None => None
  end.

Definition lift_res {A} (m : res A) : M A := λ σ, Some (m, σ).

Definition read_object (r : loc) : M object := λ σ,
  o ← objects σ !! r; Some (Ok o, σ).

Definition read_list (r : loc) : M (list key_item) := λ σ,
  l ← lists σ !! r; Some (Ok l, σ).

Definition set_object (σ : store) (r : loc) (o : object) : store :=
  {| objects := <[r := o]> (objects σ); lists := lists σ |}.

Definition set_list (σ : store) (r : loc) (l : list key_item) : store :=
  {| objects := objects σ; lists := <[r := l]> (lists σ) |}.

Definition write_object (r : loc) (o : object) : M unit := λ σ,
  _ ← objects σ !! r; Some (Ok (), set_object σ r o).

Definition write_list (r : loc) (l : list key_item) : M unit := λ σ,
  _ ← lists σ !! r; Some (Ok (), set_list σ r l).

Definition new_object (o : object) : M loc := λ σ,
  let r := fresh (dom (objects σ)) in Some (Ok r, set_object σ r o).

Definition new_list (l : list key_item) : M loc := λ σ,
  let r := fresh (dom (lists σ)) in Some (Ok r, set_list σ r l).

(** Every object and list of [σ] is in [σ'], unchanged. *)
Definition extends (σ σ' : store) : Prop :=
  objects σ ⊆ objects σ' ∧ lists σ ⊆ lists σ'.

(** [copy(self)] with [copy = deepcopy]: a new object with a new list. *)
Definition copy (self : loc) : M loc :=
  o ← read_object self;
  l ← read_list (o_slice_list o);
  l' ← new_list l;
  new_object {| o_cls := o_cls o;
                o_path := o_path o;
                o_key := o_key o;
                o_shape := o_shape o;
                o_slice_list := l';
                o_maxshape := o_maxshape o |}.

(** [tmp.shape = v] *)
Definition set_shape (tmp : loc) (v : list Z) : M unit :=
  o ← read_object tmp;
  write_object tmp {| o_cls := o_cls o;
                      o_path := o_path o;
                      o_key := o_key o;
                      o_shape := v;
                      o_slice_list := o_slice_list o;
                      o_maxshape := o_maxshape o |}.

(** The loop of lines 116-141: [n] entries are left, [ix] is the next
    index, [new_shape] what has been appended so far. *)
Fixpoint resolve_loop (self tmp : loc) (n ix : nat) (new_shape : list Z)
  : M (list Z) :=
  match n with
  | O => mret new_shape
  | S n' =>
      tmp_o ← read_object tmp;
      l ← read_list (o_slice_list tmp_o);
      sl ← lift_res (list_getitem l ix);
      self_o ← read_object self;
      r ← lift_res (resolve_entry (o_shape self_o) ix sl);
      _ ← write_list (o_slice_list tmp_o) (<[ix := KSlice r.2]> l);
      resolve_loop self tmp n' (S ix) (new_shape ++ [r.1])
  end.

(** [DatasetContainer._parse_slicing] *)
Definition _parse_slicing (self : loc) (key : pykey) : M loc :=
  tmp ← copy self;
  self_o ← read_object self;
  let rank := Z.of_nat (length (o_shape self_o)) in
  key ← lift_res (unwrap_key rank key);
  tmp_o ← read_object tmp;
  l ← read_list (o_slice_list tmp_o);
  l ← lift_res (apply_key l key);
  _ ← write_list (o_slice_list tmp_o) l;
  new_shape ← resolve_loop self tmp (length l) 0 [];
  _ ← set_shape tmp new_shape;
  mret tmp.

(** [__getitem__] of the object's class. *)
Definition __getitem__ (self : loc) (key : pykey) : M loc :=
  self_o ← read_object self;
  match o_cls self_o with
  | VirtualSource => _parse_slicing self key
  | VirtualTarget =>
      tmp ← _parse_slicing self key;
      self_o ← read_object self;
      _ ← set_shape tmp (o_shape self_o);
      mret tmp
  end.

(** The descriptor value held at a location, when its list holds slices
    only. *)
Definition as_slice (ix : key_item) : option pyslice :=
  match ix with KSlice s => Some s | _ => None end.

Definition descriptor_at (σ : store) (r : loc) : option DatasetContainer :=
  o ← objects σ !! r;
  l ← lists σ !! o_slice_list o;
  sl ← mapM as_slice l;
  Some {| cls := o_cls o;
          path := o_path o;
          key := o_key o;
          shape := o_shape o;
          slice_list := sl;
          maxshape := o_maxshape o |}.

(** The object that holds the descriptor [d], with its slice list at
    [rl], and the descriptor an object holds when its list is [sls]. *)
Definition object_of (d : DatasetContainer) (rl : loc) : object :=
  {| o_cls := cls d;
     o_path := path d;
     o_key := key d;
     o_shape := shape d;
     o_slice_list := rl;
     o_maxshape := maxshape d |}.

Definition descriptor_of (o : object) (sls : list pyslice)
  : DatasetContainer :=
  {| cls := o_cls o;
     path := o_path o;
     key := o_key o;
     shape := o_shape o;
     slice_list := sls;
     maxshape := o_maxshape o |}.

End store.

(** ** reshapevdsgenerator.py *)

Module reshapevdsgenerator.
Import group.

(** Modelled from the spec: the per-file metadata that [grab_metadata] of
    the base class [VDSGenerator] (vdsgenerator.py) returns, and the
    [SourceMeta] tuple of the same module, are records of [frames]
    (a tuple), [height], [width] and [dtype]. *)
Record SourceMeta := {
  frames : list Z;
  height : Z;
  width : Z;
  dtype : string
}.

(** Modelled from the spec: [VDSGenerator.FULL_SLICE], the full slice of
    an axis. *)
Definition FULL_SLICE : key_item := KSlice (Slice None None None).

(** An [h5py.VirtualSource], whole ([vs_sel = None]) or indexed. *)
Record h5VirtualSource := {
  vs_path : string;
  vs_name : string;
  vs_shape : list Z;
  vs_dtype : string;
  vs_sel : option (list key_item)
}.

(** An [h5py.VirtualLayout]: each [v_layout[k] = s] adds an entry. *)
Record VirtualLayout := {
  vl_shape : list Z;
  vl_dtype : string;
  vl_maps : list (list key_item * h5VirtualSource)
}.

Definition layout_setitem (v_layout : VirtualLayout) (k : list key_item)
    (s : h5VirtualSource) : VirtualLayout :=
  {| vl_shape := vl_shape v_layout;
     vl_dtype := vl_dtype v_layout;
     vl_maps := vl_maps v_layout ++ [(k, s)] |}.

Definition source_getitem (v_source : h5VirtualSource) (k : list key_item)
  : h5VirtualSource :=
  {| vs_path := vs_path v_source;
     vs_name := vs_name v_source;
     vs_shape := vs_shape v_source;
     vs_dtype := vs_dtype v_source;
     vs_sel := Some k |}.

Record ReshapeVDSGenerator := {
  files : list string;
  source_node : string;
  total_frames : Z;
  periods : list Z;
  alternate : option (list bool);
  dimensions : list Z;
  source_file : string
}.

(** [ReshapeVDSGenerator.__init__], after the base class has set [files]
    and [source_node]. *)
Definition __init__ (shape : list Z) (files : list string)
    (source_node : string) (alternate : option (list bool))
  : res ReshapeVDSGenerator :=
  source_file ← tuple_getitem files 0;
  mret {| files := files;
          source_node := source_node;
          total_frames := 0;
          periods := [];
          alternate := alternate;
          dimensions := shape;
          source_file := source_file |}.

Definition set_total_frames (self : ReshapeVDSGenerator) (v : Z)
  : ReshapeVDSGenerator :=
  {| files := files self;
     source_node := source_node self;
     total_frames := v;
     periods := periods self;
     alternate := alternate self;
     dimensions := dimensions self;
     source_file := source_file self |}.

(** [ReshapeVDSGenerator.product] *)
Definition product (iterable : list Z) : Z :=
  foldl (λ product value, product * value) 1 iterable.

(** [create_mixed_radix_set] *)
Definition create_mixed_radix_set (self : ReshapeVDSGenerator) : list Z :=
  foldl (λ radices axis_length, hd 0 radices * axis_length :: radices)
    [1] (reverse (tail (dimensions self))).

(** The [while] loop of [calculate_axis_indices]. *)
Fixpoint subtract_loop (fuel : nat) (frame_index radix : Z) (idx : nat)
    (axis_indices : list Z) : run (Z * list Z) :=
  if radix <=? frame_index then
    match fuel with
    | O => OutOfFuel
    | S fuel' =>
        v ← lift (list_getitem axis_indices idx);
        axis_indices ← lift (list_setitem axis_indices idx (v + 1));
        subtract_loop fuel' (frame_index - radix) radix idx axis_indices
    end
  else mret (frame_index, axis_indices).

(** The [for idx, radix in enumerate(radices)] loop, from index [idx]. *)
Fixpoint radix_loop (fuel : nat) (frame_index : Z) (idx : nat)
    (radices : list Z) (axis_indices : list Z) : run (Z * list Z) :=
  match radices with
  | [] => mret (frame_index, axis_indices)
  | radix :: radices' =>
      '(frame_index, axis_indices) ←
        subtract_loop fuel frame_index radix idx axis_indices;
      radix_loop fuel frame_index (S idx) radices' axis_indices
  end.

(** Body of the [for axis in range(1, len(self.dimensions))] loop. *)
Definition invert_axis (self : ReshapeVDSGenerator) (shape : list Z)
    (axis_indices : list Z) (axis : nat) : res (list Z) :=
  alt ← match alternate self return res bool with
        | Some a => tuple_getitem a axis
        | None =>
            Raise (Exn TypeError "'NoneType' object has no attribute '__getitem__'")
        end;
  if alt : bool then
    parent ← list_getitem axis_indices (axis - 1)%nat;
    if negb (parent `mod` 2 =? 0) then
      L ← tuple_getitem shape axis;
      cur ← list_getitem axis_indices axis;
      list_setitem axis_indices axis (L - 1 - cur)
    else mret axis_indices
  else mret axis_indices.

Fixpoint invert_loop (self : ReshapeVDSGenerator) (shape : list Z)
    (axes : list nat) (axis_indices : list Z) : res (list Z) :=
  match axes with
  | [] => mret axis_indices
  | axis :: axes' =>
      axis_indices ← invert_axis self shape axis_indices axis;
      invert_loop self shape axes' axis_indices
  end.

(** [calculate_axis_indices]; each [while] loop may take [fuel] steps. *)
Definition calculate_axis_indices (fuel : nat) (self : ReshapeVDSGenerator)
    (frame_index : Z) (radices : list Z) (shape : list Z) : run (list Z) :=
  let axis_indices := (λ _, 0) <$> dimensions self in
  '(_, axis_indices) ← radix_loop fuel frame_index 0 radices axis_indices;
  lift (invert_loop self shape
          (seq 1 (length (dimensions self) - 1)%nat) axis_indices).

Section with_metadata.

(** [grab_metadata] belongs to the base class; it is a parameter. *)
Variable grab_metadata : string → SourceMeta.

(** The check of lines 49-52 against the first file's [data]. *)
Definition check_attributes (data temp_data : SourceMeta) : res unit :=
  if bool_decide (height temp_data = height data
                  ∧ width temp_data = width data
                  ∧ dtype temp_data = dtype data)
  then mret ()
  else Raise (Exn ValueError "Files have mismatched {}").

(** [process_source_datasets]: the source metadata and the object with
    [total_frames] set. *)
Definition process_source_datasets (self : ReshapeVDSGenerator)
  : res (SourceMeta * ReshapeVDSGenerator) :=
  file0 ← tuple_getitem (files self) 0;
  let data := grab_metadata file0 in
  first ← tuple_getitem (frames data) 0;
  total ← foldlM (λ total dataset,
             let temp_data := grab_metadata dataset in
             n ← tuple_getitem (frames temp_data) 0;
             _ ← check_attributes data temp_data;
             mret (total + n))
           first (tail (files self));
  mret ({| frames := frames data;
           height := height data;
           width := width data;
           dtype := dtype data |},
        set_total_frames self total).

End with_metadata.

(** [create_alternating_virtual_layout] *)
Definition create_alternating_virtual_layout (fuel : nat)
    (self : ReshapeVDSGenerator) (shape : list Z)
    (v_source : h5VirtualSource) (v_layout : VirtualLayout)
  : run VirtualLayout :=
  let radices := create_mixed_radix_set self in
  foldlM (λ v_layout idx,
      axis_indices ← calculate_axis_indices fuel self idx radices shape;
      let vds_hyperslab :=
        (KInt <$> axis_indices) ++ [FULL_SLICE; FULL_SLICE] in
      mret (layout_setitem v_layout vds_hyperslab
              (source_getitem v_source [KInt idx])))
    v_layout (seqZ 0 (product (dimensions self))).

Definition shape_mismatch : exn :=
  Exn ValueError
    "Length of source frames ({}) does no match target shape [{}] ({}))".

(** [create_virtual_layout] *)
Definition create_virtual_layout (fuel : nat) (self : ReshapeVDSGenerator)
    (source_meta : SourceMeta) : run VirtualLayout :=
  frames0 ← lift (tuple_getitem (frames source_meta) 0);
  if negb (frames0 =? product (dimensions self)) then Throw shape_mismatch
  else
    let vds_shape :=
      dimensions self ++ [height source_meta; width source_meta] in
    let v_layout :=
      {| vl_shape := vds_shape;
         vl_dtype := dtype source_meta;
         vl_maps := [] |} in
    let source_shape :=
      frames source_meta ++ [height source_meta; width source_meta] in
    let v_source :=
      {| vs_path := source_file self;
         vs_name := source_node self;
         vs_shape := source_shape;
         vs_dtype := dtype source_meta;
         vs_sel := None |} in
    match alternate self with
    | Some _ =>
        create_alternating_virtual_layout fuel self vds_shape v_source
          v_layout
    | None => mret (layout_setitem v_layout [KEllipsis] v_source)
    end.

End reshapevdsgenerator.

(** ** Reference definitions

  The quantities the properties below compare the code with. *)

Module reference.

(** [ceil(a / b)] for a positive [b]. *)
Definition ceil_div (a b : Z) : Z := - (- a / b).



(** A negative bound counts from the end of the axis. *)
Definition normalise (L v : Z) : Z := if v <? 0 then L + v else v.

(** Length of an axis sliced by resolved [(start, stop, step)]. *)
Definition axis_length (start stop step : Z) : Z :=
  if 0 <? step then
    if start <? stop then ceil_div (stop - start) step else 0
  else
    if stop <? start then ceil_div (start - stop) (- step) else 0.

(** Distance left to [stop] in the direction of [step]. *)
Definition remaining (i stop step : Z) : Z :=
  if 0 <? step then stop - i else i - stop.

(** The indices [i, i + step, ...] that lie before [stop] in the direction
    of [step], listed one by one; at most [fuel] of them. *)
Fixpoint enumerate_from (fuel : nat) (i stop step : Z) : list Z :=
  match fuel with
  | O => []
  | S fuel' =>
      if (if 0 <? step then i <? stop else stop <? i)
      then i :: enumerate_from fuel' (i + step) stop step
      else []
  end.

(** The explicit indices of a resolved slice: there cannot be more than
    [|stop - start|] of them. *)
Definition explicit_indices (start stop step : Z) : list Z :=
  enumerate_from (Z.to_nat (Z.abs (stop - start))) start stop step.

(** The linear index of coordinates in a mixed-radix system. *)
Fixpoint coords_to_linear (coords radices : list Z) : Z :=
  match coords, radices with
  | c :: coords', r :: radices' => c * r + coords_to_linear coords' radices'
  | _, _ => 0
  end.

(** The digits of [i] for a list of radices, by division with remainder:
    each digit is the quotient by its radix of what the radices before it
    have left. *)
Fixpoint digits (i : Z) (radices : list Z) : list Z :=
  match radices with
  | [] => []
  | r :: radices' => i `div` r :: digits (i `mod` r) radices'
  end.

(** The radices for the axes that follow the outermost one. *)
Definition radices_of (inner : list Z) : list Z :=
  foldl (λ radices axis_length, hd 0 radices * axis_length :: radices)
    [1] (reverse inner).

(** After inversion: the outermost coordinate is the raw one, and every
    other coordinate is inverted exactly when its axis alternates and the
    coordinate of the axis before it, as returned, is odd. *)
Definition alternated (alt : list bool) (shape raw coords : list Z) : Prop :=
  length coords = length raw
  ∧ coords !! 0%nat = raw !! 0%nat
  ∧ ∀ (k : nat) (r L parent : Z) (a : bool),
      raw !! S k = Some r → shape !! S k = Some L →
      alt !! S k = Some a → coords !! k = Some parent →
      coords !! S k
      = Some (if a && negb (parent `mod` 2 =? 0) then L - 1 - r else r).


(** The full slice [:] of an axis. *)
Definition full_slice : group.key_item :=
  group.KSlice (group.Slice None None None).

(** The slice state a descriptor has after construction: the full extent
    of every axis. *)
Definition full_extent (shape : list Z) : list group.pyslice :=
  (λ ix, group.Slice (Some 0) (Some ix) (Some 1)) <$> shape.

(** A slice is resolved with non-negative bounds and a non-zero step. *)
Definition resolved_nonneg (sl : group.pyslice) : Prop :=
  ∃ a b s, sl = group.Slice (Some a) (Some b) (Some s)
           ∧ 0 ≤ a ∧ 0 ≤ b ∧ s ≠ 0.

(** The length of the axis a resolved slice selects. *)
Definition resolved_length (sl : group.pyslice) : Z :=
  match sl with
  | group.Slice (Some a) (Some b) (Some s) => axis_length a b s
  | _ => 0
  end.

(** Descriptors as the code makes them: by construction, or by indexing
    some descriptor. *)
Inductive produced : group.DatasetContainer → Prop :=
| produced_init c path key shape maxshape :
    produced (group.DatasetContainer__init__ c path key shape maxshape)
| produced_getitem d0 key d :
    group.__getitem__ d0 key = Ok d → produced d.

(** [u] is the one axis of [maxshape] that is unbounded. *)
Definition only_unbounded (maxshape : list Z) (u : nat) : Prop :=
  maxshape !! u = Some group.UNLIMITED
  ∧ ∀ j, j ≠ u → maxshape !! j ≠ Some group.UNLIMITED.

(** The entries of a key and the two ways in which they reach
    [__getitem__]: as the arguments themselves, or as one tuple, which is
    what [d[a, b]] passes. *)
Definition key_items (key : group.pykey) : list group.key_item :=
  match key with
  | group.Args items => items
  | group.Packed items _ => items
  end.

Definition one_tuple (items : list group.key_item) : group.pykey :=
  group.Packed items 0.

(** h5py checks the length of the tuples it is given before it calls HDF5:
    the maximal shape of [create_simple] must be as long as the shape, and
    [start], [count], [stride] and a block other than [None] of
    [select_hyperslab] as long as the rank of the dataspace; otherwise it
    raises a [ValueError].  This instance refuses nothing else. *)
Definition argument_lengths_checked : group.h5py :=
  {| group.create_simple_error := λ dims maxdims,
       if decide (length maxdims = length dims) then None
       else Some (Exn ValueError "max_dims_tpl must be a tuple of the rank");
     group.select_hyperslab_error := λ space sel,
       let rank := length (group.ds_shape space) in
       if ((length (group.hs_start sel) =? rank)%nat
           && (length (group.hs_count sel) =? rank)%nat
           && (length (group.hs_stride sel) =? rank)%nat
           && from_option (λ b, (length b =? rank)%nat) true
                (group.hs_block sel))
       then None
       else Some (Exn ValueError "selection tuples must be of the rank") |}.

(** An h5py whose [select_hyperslab] refuses a block that is not as long as
    the rank of the dataspace. *)
Definition checks_block_rank (h5 : group.h5py) : Prop :=
  ∀ space sel b,
    group.hs_block sel = Some b →
    length b ≠ length (group.ds_shape space) →
    ∃ msg,
      group.select_hyperslab_error h5 space sel = Some (Exn ValueError msg).

End reference.

(** * Properties *)

Import group.

Section slice_arithmetic.

Import reference.

Lemma floor_form_is_ceil (n s : Z) :
  0 < s → (n + s - 1) / s = ceil_div n s.
Proof.
  intros Hs. unfold ceil_div.
  symmetry. apply Z.opp_inj. rewrite Z.opp_involutive.
  symmetry. apply (Z.div_unique _ _ _ (s * ((n + s - 1) / s) - n)).
  - left. pose proof (Z.mul_div_le (n + s - 1) s Hs).
    pose proof (Z.mul_succ_div_gt (n + s - 1) s Hs). lia.
  - lia.
Qed.



Lemma ceil_div_pos (n s : Z) : 0 < s → 0 < n → 0 < ceil_div n s.
Proof.
  intros Hs Hn. unfold ceil_div.
  assert (- n / s < 0); [|lia].
  apply Z.div_lt_upper_bound; lia.
Qed.


(** More fuel than the distance between the bounds lists nothing more. *)
Lemma enumerate_from_fuel (fuel1 fuel2 : nat) (i stop step : Z) :
  step ≠ 0 →
  remaining i stop step ≤ Z.of_nat fuel1 →
  remaining i stop step ≤ Z.of_nat fuel2 →
  enumerate_from fuel1 i stop step = enumerate_from fuel2 i stop step.
Proof.
  intros Hstep. revert fuel2 i. unfold remaining.
  induction fuel1 as [|fuel1 IH]; intros [|fuel2] i H1 H2; simpl; try done.
  - destruct (Z.ltb_spec 0 step).
    + destruct (Z.ltb_spec i stop); [lia|done].
    + destruct (Z.ltb_spec stop i); [lia|done].
  - destruct (Z.ltb_spec 0 step).
    + destruct (Z.ltb_spec i stop); [lia|done].
    + destruct (Z.ltb_spec stop i); [lia|done].
  - destruct (Z.ltb_spec 0 step) as [Hpos|Hneg].
    + destruct (Z.ltb_spec i stop); [|done]. f_equal.
      apply IH; lia.
    + destruct (Z.ltb_spec stop i); [|done]. f_equal.
      apply IH; lia.
Qed.


(** Every listed index is [start + k * step] for its position [k], and
    lies before [stop] in the direction of [step]. *)
Lemma enumerate_from_lookup (fuel : nat) (i stop step : Z) (k : nat) (x : Z) :
  enumerate_from fuel i stop step !! k = Some x →
  x = i + Z.of_nat k * step
  ∧ (if 0 <? step then x < stop else stop < x).
Proof.
  revert i k. induction fuel as [|fuel IH]; intros i k; simpl; [done|].
  destruct (if 0 <? step then i <? stop else stop <? i) eqn:Hc; [|done].
  destruct k as [|k]; simpl.
  - intros [= <-]. split; [lia|].
    destruct (0 <? step); by apply Z.ltb_lt in Hc.
  - intros [-> ?]%IH. split; [lia|done].
Qed.

End slice_arithmetic.

Section axis_length.

Import reference.

(** What the loop body computes once the bounds are known. *)
Lemma resolve_slice_resolved (self_shape : list Z) (ix : nat) (a b s : Z) :
  0 ≤ a → 0 ≤ b → s ≠ 0 →
  resolve_slice self_shape ix (Slice (Some a) (Some b) (Some s))
  = Ok (axis_length a b s, Slice (Some a) (Some b) (Some s)).
Proof.
  intros Ha Hb Hs. unfold resolve_slice, wrap_negative, axis_length. simpl.
  rewrite (proj2 (Z.ltb_ge a 0)), (proj2 (Z.ltb_ge b 0)) by done.
  destruct (Z.ltb_spec 0 s) as [Hpos|Hneg]; simpl.
  - by rewrite floor_form_is_ceil.
  - rewrite (proj2 (Z.ltb_lt s 0)) by lia. simpl.
    replace (a - b - s - 1) with (a - b + - s - 1) by lia.
    rewrite floor_form_is_ceil by lia. done.
Qed.



(** The bounds are not clamped to the axis, and an unset [stop] of a
    negative step is 0, not the position before index 0: on an axis of
    length 5 the slice [3::-1] resolves to (3, 0, -1), of length 3. *)
Lemma negative_step_unset_stop :
  resolve_slice [5] 0 (Slice (Some 3) None (Some (-1)))
  = Ok (3, Slice (Some 3) (Some 0) (Some (-1)))
  ∧ explicit_indices 3 0 (-1) = [3; 2; 1].
Proof. split; reflexivity. Qed.

End axis_length.

Section python_slices.

Context {A : Type}.
Implicit Types l v : list A.

Lemma list_setslice_prefix l (k : nat) v :
  list_setslice l None (Some (Z.of_nat k)) v = v ++ drop k l.
Proof.
  unfold list_setslice, slice_bounds, clamp_index. simpl.
  rewrite (proj2 (Z.ltb_ge (Z.of_nat k) 0)) by lia.
  destruct (decide (k ≤ length l)%nat).
  - by replace (Z.to_nat (0 `max` (Z.of_nat k `min` Z.of_nat (length l))))
      with k by lia.
  - replace (Z.to_nat (0 `max` (Z.of_nat k `min` Z.of_nat (length l))))
      with (length l) by lia.
    rewrite !drop_ge by lia. done.
Qed.

Lemma list_setslice_head l (k : nat) v :
  list_setslice l (Some 0) (Some (Z.of_nat k)) v = v ++ drop k l.
Proof.
  rewrite <- list_setslice_prefix.
  unfold list_setslice, slice_bounds, clamp_index. simpl.
  by replace (0 `min` Z.of_nat (length l)) with 0 by lia.
Qed.

Lemma list_getslice_head l (k : nat) :
  list_getslice l (Some 0) (Some (Z.of_nat k)) = take k l.
Proof.
  unfold list_getslice, slice_bounds, clamp_index. simpl.
  rewrite (proj2 (Z.ltb_ge (Z.of_nat k) 0)) by lia.
  replace (0 `min` Z.of_nat (length l)) with 0 by lia.
  change (Z.to_nat 0) with 0%nat. rewrite Nat.sub_0_r, drop_0.
  destruct (decide (k ≤ length l)%nat).
  - f_equal. lia.
  - rewrite !take_ge; [done|lia|lia].
Qed.

Lemma list_setslice_tail l (b : nat) v :
  (0 < b)%nat →
  list_setslice l (Some (- Z.of_nat b)) None v = take (length l - b) l ++ v.
Proof.
  intros Hb. unfold list_setslice, slice_bounds, clamp_index. simpl.
  rewrite (proj2 (Z.ltb_lt (- Z.of_nat b) 0)) by lia.
  replace (Z.to_nat ((Z.of_nat (length l) + - Z.of_nat b) `max` 0))
    with (length l - b)%nat by lia.
  rewrite drop_ge by lia. by rewrite app_nil_r.
Qed.

Lemma list_getslice_tail l (b : nat) :
  (0 < b)%nat →
  list_getslice l (Some (- Z.of_nat b)) None = drop (length l - b) l.
Proof.
  intros Hb. unfold list_getslice, slice_bounds, clamp_index. simpl.
  rewrite (proj2 (Z.ltb_lt (- Z.of_nat b) 0)) by lia.
  replace (Z.to_nat ((Z.of_nat (length l) + - Z.of_nat b) `max` 0))
    with (length l - b)%nat by lia.
  rewrite take_ge; [done|]. rewrite length_drop. lia.
Qed.

End python_slices.

Section ellipsis.

Implicit Types key before after l : list key_item.

Lemma is_ellipsis_int_to_slice (ix : key_item) :
  is_ellipsis (int_to_slice ix) = is_ellipsis ix.
Proof. by destruct ix. Qed.

Lemma ellipsis_test_none key :
  Forall (λ ix, is_ellipsis ix = false) key →
  is_ellipsis <$> key = replicate (length key) false.
Proof. induction 1 as [|ix key Hix _ IH]; csimpl; [done|]. by rewrite Hix, IH. Qed.

Lemma sum_bools_app (t1 t2 : list bool) :
  sum_bools (t1 ++ t2) = sum_bools t1 + sum_bools t2.
Proof. induction t1 as [|b t1 IH]; csimpl; [done|]. rewrite IH. lia. Qed.

Lemma sum_bools_false (n : nat) : sum_bools (replicate n false) = 0.
Proof. induction n as [|n IH]; csimpl; [done|]. by rewrite IH. Qed.

Lemma sum_bools_nonneg (t : list bool) : 0 ≤ sum_bools t.
Proof. induction t as [|[] t IH]; csimpl; lia. Qed.

Lemma any_false (n : nat) : any (replicate n false) = false.
Proof. by induction n. Qed.

Lemma any_app_true (t1 t2 : list bool) : any (t1 ++ true :: t2) = true.
Proof. induction t1 as [|[] t1 IH]; csimpl; done. Qed.

Lemma index_true_first (n : nat) (t : list bool) :
  index_true (replicate n false ++ true :: t) = Ok n.
Proof.
  unfold index_true.
  induction n as [|n IH]; csimpl; [done|].
  destruct (list_find _ _) as [[i b]|]; csimpl in *; [|done].
  by injection IH as ->.
Qed.

(** A key with at most one ellipsis has none, or splits around it. *)
Lemma at_most_one_ellipsis key :
  sum_bools (is_ellipsis <$> key) ≤ 1 →
  Forall (λ ix, is_ellipsis ix = false) key
  ∨ ∃ before after,
      key = before ++ KEllipsis :: after
      ∧ Forall (λ ix, is_ellipsis ix = false) before
      ∧ Forall (λ ix, is_ellipsis ix = false) after.
Proof.
  induction key as [|ix key IH]; csimpl; [by left|].
  intros Hsum. pose proof (sum_bools_nonneg (is_ellipsis <$> key)).
  destruct (is_ellipsis ix) eqn:Hix; csimpl in Hsum.
  - right. exists [], key. destruct ix; try done.
    split; [done|]. split; [done|].
    destruct IH as [IH|(before & after & -> & _ & _)]; [lia|done|].
    rewrite fmap_app, sum_bools_app in Hsum. csimpl in Hsum.
    pose proof (sum_bools_nonneg (is_ellipsis <$> before)).
    pose proof (sum_bools_nonneg (is_ellipsis <$> after)). lia.
  - destruct IH as [IH|(before & after & -> & Hb & Ha)]; [lia|..].
    + left. by constructor.
    + right. exists (ix :: before), after. split; [done|].
      split; [by constructor|done].
Qed.

Lemma ellipsis_test_split before after :
  Forall (λ ix, is_ellipsis ix = false) before →
  Forall (λ ix, is_ellipsis ix = false) after →
  is_ellipsis <$> (before ++ KEllipsis :: after)
  = replicate (length before) false ++ true :: replicate (length after) false.
Proof.
  intros Hb Ha. rewrite fmap_app. csimpl.
  by rewrite !ellipsis_test_none.
Qed.

(** Without an ellipsis the key overwrites the leading entries. *)
Lemma apply_key_no_ellipsis l key :
  Forall (λ ix, is_ellipsis ix = false) key →
  apply_key l key = Ok (key ++ drop (length key) l).
Proof.
  intros Hkey. unfold apply_key.
  rewrite ellipsis_test_none by done.
  rewrite sum_bools_false, any_false. csimpl.
  by rewrite list_setslice_prefix.
Qed.

(** With one ellipsis: the entries before it overwrite the leading
    entries; those after it overwrite the trailing entries when they are
    at least as many as the entries before. *)
Lemma apply_key_one_ellipsis l before after :
  Forall (λ ix, is_ellipsis ix = false) before →
  Forall (λ ix, is_ellipsis ix = false) after →
  apply_key l (before ++ KEllipsis :: after)
  = Ok (if decide (before = [] ∧ after = []) then l
        else
          let tmp1 := before ++ drop (length before) l in
          if decide (length before ≤ length after)%nat
          then take (length tmp1 - length after) tmp1 ++ after
          else tmp1).
Proof.
  intros Hb Ha. unfold apply_key.
  rewrite ellipsis_test_split by done.
  rewrite sum_bools_app. csimpl. rewrite !sum_bools_false.
  rewrite any_app_true. csimpl.
  destruct (decide (before = [] ∧ after = [])) as [[-> ->]|Hne]; [done|].
  rewrite length_app. csimpl.
  destruct (Nat.eqb_spec (length before + S (length after)) 1) as [Heq|_].
  { destruct before, after; csimpl in *; try lia. by destruct Hne. }
  csimpl. rewrite index_true_first. csimpl.
  rewrite reverse_app, reverse_cons, !reverse_replicate, <- app_assoc.
  csimpl. rewrite index_true_first. csimpl.
  rewrite list_setslice_head, list_getslice_head.
  rewrite take_app_length.
  destruct (Nat.leb_spec (length before) (length after)) as [Hle|Hgt].
  - rewrite decide_True by done.
    assert (0 < length after)%nat as Hpos.
    { destruct before, after; csimpl in *; try lia. by destruct Hne. }
    rewrite list_setslice_tail, list_getslice_tail by done.
    do 2 f_equal.
    rewrite length_app. csimpl.
    replace (length before + S (length after) - length after)%nat
      with (length (before ++ [KEllipsis])).
    + change (before ++ KEllipsis :: after)
        with (before ++ [KEllipsis] ++ after).
      by rewrite (assoc_L (++) before [KEllipsis] after), drop_app_length.
    + rewrite length_app. csimpl. lia.
  - by rewrite decide_False by lia.
Qed.

Lemma apply_key_many_ellipsis l key :
  1 < sum_bools (is_ellipsis <$> key) →
  apply_key l key
  = Raise (Exn ValueError "Only use of one Ellipsis(...) supported.").
Proof.
  intros Hsum. unfold apply_key.
  by rewrite (proj2 (Z.ltb_lt _ _) Hsum).
Qed.

End ellipsis.

Section parse_slicing.

Import reference.
Implicit Types key before after l : list key_item.
Implicit Types d : DatasetContainer.

(** The loop treats entries alike when its body does. *)
Lemma resolve_loop_ext (self_shape : list Z) (ix : nat) l1 l2 :
  length l1 = length l2 →
  (∀ k x y, l1 !! k = Some x → l2 !! k = Some y →
     resolve_entry self_shape (ix + k) x = resolve_entry self_shape (ix + k) y) →
  resolve_loop self_shape ix l1 = resolve_loop self_shape ix l2.
Proof.
  revert ix l2. induction l1 as [|x l1 IH]; intros ix [|y l2] Hlen H;
    simpl in *; try done.
  pose proof (H 0%nat x y eq_refl eq_refl) as H0.
  rewrite Nat.add_0_r in H0. rewrite H0.
  rewrite (IH (S ix) l2); [done|lia|].
  intros k x' y' Hx Hy.
  replace (S ix + k)%nat with (ix + S k)%nat by lia. by apply H.
Qed.

Lemma resolve_loop_length (self_shape : list Z) (ix : nat) l resolved :
  resolve_loop self_shape ix l = Ok resolved → length resolved = length l.
Proof.
  revert ix resolved. induction l as [|x l IH]; intros ix resolved; simpl.
  - by intros [= <-].
  - destruct (resolve_entry _ _ _) as [r|]; simpl; [|done].
    destruct (resolve_loop _ _ _) as [rs|] eqn:Hrs; simpl; [|done].
    intros [= <-]. simpl. f_equal. by eapply IH.
Qed.

(** The full slice [:] and the slice state after construction resolve to
    the same thing on an axis of the shape. *)
Lemma resolve_full_slice (self_shape : list Z) (ix : nat) (L : Z) :
  self_shape !! ix = Some L →
  resolve_entry self_shape ix (KSlice (Slice (Some 0) (Some L) (Some 1)))
  = resolve_entry self_shape ix full_slice.
Proof.
  intros HL. unfold full_slice, resolve_entry, resolve_slice. simpl.
  unfold tuple_getitem. by rewrite HL.
Qed.

Lemma unwrap_key_args (rank : nat) (items : list key_item) :
  items ≠ [] → (length items ≤ rank)%nat →
  unwrap_key (Z.of_nat rank) (Args items) = Ok (int_to_slice <$> items).
Proof.
  intros Hne Hlen. unfold unwrap_key. simpl.
  rewrite (proj2 (Z.ltb_ge _ _)) by lia.
  by destruct items.
Qed.

Lemma no_ellipsis_int_to_slice key :
  Forall (λ ix, is_ellipsis ix = false) key →
  Forall (λ ix, is_ellipsis ix = false) (int_to_slice <$> key).
Proof.
  intros H. apply Forall_fmap. eapply Forall_impl; [exact H|].
  intros ix Hix. simpl. by rewrite is_ellipsis_int_to_slice.
Qed.

(** What a key with one ellipsis writes when the entries after the
    ellipsis are none or at least as many as those before it. *)
Lemma apply_key_ellipsis_fills (sls : list pyslice) before after :
  Forall (λ ix, is_ellipsis ix = false) before →
  Forall (λ ix, is_ellipsis ix = false) after →
  (length before + 1 + length after ≤ length sls)%nat →
  after = [] ∨ (length before ≤ length after)%nat →
  apply_key (KSlice <$> sls) (int_to_slice <$> (before ++ KEllipsis :: after))
  = Ok ((int_to_slice <$> before)
        ++ (KSlice <$> take (length sls - length before - length after)
                         (drop (length before) sls))
        ++ (int_to_slice <$> after)).
Proof.
  intros Hb Ha Hlen Hcase.
  rewrite fmap_app, fmap_cons. simpl.
  rewrite apply_key_one_ellipsis by by apply no_ellipsis_int_to_slice.
  f_equal. rewrite !length_fmap.
  destruct (decide (_ ∧ _)) as [[Hb0 Ha0]|Hne].
  - apply fmap_nil_inv in Hb0, Ha0. subst. simpl.
    rewrite Nat.sub_0_r, drop_0, take_ge, app_nil_r by lia. done.
  - simpl. rewrite length_app, length_drop, !length_fmap.
    destruct (decide (length before ≤ length after)%nat) as [Hle|Hgt].
    + rewrite take_app_ge by (rewrite length_fmap; lia).
      rewrite length_fmap, <- app_assoc. do 2 f_equal.
      rewrite <- fmap_drop, <- fmap_take. do 2 f_equal. lia.
    + destruct Hcase as [->|?]; [|lia]. simpl.
      rewrite app_nil_r, Nat.sub_0_r. f_equal.
      rewrite take_ge by (rewrite length_drop; lia).
      by rewrite fmap_drop.
Qed.

(** The loop resolves each entry at its own index. *)
Lemma resolve_loop_lookup (self_shape : list Z) (l : list key_item) :
  ∀ (ix : nat) rs (k : nat) (x : key_item),
    resolve_loop self_shape ix l = Ok rs →
    l !! k = Some x →
    ∃ r, rs !! k = Some r ∧ resolve_entry self_shape (ix + k) x = Ok r.
Proof.
  induction l as [|y l IH]; intros ix rs k x; simpl; [done|].
  destruct (resolve_entry self_shape ix y) as [r|] eqn:Hr; simpl; [|done].
  destruct (resolve_loop _ _ _) as [rs'|] eqn:Hrs; simpl; [|done].
  intros [= <-]. destruct k as [|k]; simpl.
  - intros [= <-]. exists r. by rewrite Nat.add_0_r.
  - intros Hx. destruct (IH (S ix) rs' k x Hrs Hx) as (r' & Hk & Hr').
    exists r'. split; [done|].
    by replace (ix + S k)%nat with (S ix + k)%nat by lia.
Qed.

(** A key that is not empty and no longer than the rank passes the rank
    check, whether its entries come as the arguments or as one tuple. *)
Lemma unwrap_key_entries (rank : nat) (wrap : list key_item → pykey)
    (items : list key_item) :
  wrap = Args ∨ wrap = one_tuple →
  items ≠ [] → (length items ≤ rank)%nat →
  unwrap_key (Z.of_nat rank) (wrap items) = Ok (int_to_slice <$> items).
Proof.
  intros [->| ->] Hne Hlen; [by apply unwrap_key_args|].
  unfold unwrap_key, one_tuple. simpl.
  destruct items; [done|]. simpl in Hlen.
  by rewrite (proj2 (Z.ltb_ge _ _)) by lia.
Qed.

(** C4, as the code has it: take a key with one ellipsis, at most as many
    entries as the descriptor has axes, and after the ellipsis either no
    entries or at least as many as before it, passed as the arguments or
    as one tuple.  Parsing resolves, axis by axis, the entries before the
    ellipsis on the leading axes, the entries after it on the trailing
    axes, and on the axes in between the slices the descriptor already has:
    these are resolved again, which leaves a slice with non-negative bounds
    and non-zero step as it is.  So all axes are covered.  When the slice
    state is the full extent of the shape, as after construction, parsing
    gives the same result as for the key in which the ellipsis is replaced
    by explicit full slices. *)
Theorem C4_ellipsis_fills_leading_and_trailing d
    (wrap : list key_item → pykey) before after :
  wrap = Args ∨ wrap = one_tuple →
  Forall (λ ix, is_ellipsis ix = false) before →
  Forall (λ ix, is_ellipsis ix = false) after →
  length (slice_list d) = length (shape d) →
  (length before + 1 + length after ≤ length (shape d))%nat →
  after = [] ∨ (length before ≤ length after)%nat →
  let n := length (shape d) in
  let covered := (n - length before - length after)%nat in
  let kept := take covered (drop (length before) (slice_list d)) in
  _parse_slicing d (wrap (before ++ KEllipsis :: after))
  = (resolved ← resolve_loop (shape d) 0
                  ((int_to_slice <$> before) ++ (KSlice <$> kept)
                   ++ (int_to_slice <$> after));
     mret {| cls := cls d; path := path d; key := key d;
             shape := fst <$> resolved;
             slice_list := snd <$> resolved;
             maxshape := maxshape d |})
  ∧ (∀ d',
       _parse_slicing d (wrap (before ++ KEllipsis :: after)) = Ok d' →
       length (slice_list d') = n
       ∧ (∀ (k : nat) (x : key_item),
            before !! k = Some x →
            ∃ r, resolve_entry (shape d) k (int_to_slice x) = Ok r
                 ∧ shape d' !! k = Some r.1
                 ∧ slice_list d' !! k = Some r.2)
       ∧ (∀ (k : nat) (sl : pyslice),
            (length before ≤ k < n - length after)%nat →
            slice_list d !! k = Some sl →
            ∃ r, resolve_slice (shape d) k sl = Ok r
                 ∧ shape d' !! k = Some r.1
                 ∧ slice_list d' !! k = Some r.2
                 ∧ (resolved_nonneg sl → r.2 = sl))
       ∧ (∀ (k : nat) (x : key_item),
            after !! k = Some x →
            ∃ r, resolve_entry (shape d) (n - length after + k)
                   (int_to_slice x) = Ok r
                 ∧ shape d' !! (n - length after + k)%nat = Some r.1
                 ∧ slice_list d' !! (n - length after + k)%nat = Some r.2))
  ∧ (slice_list d = full_extent (shape d) →
     _parse_slicing d (wrap (before ++ KEllipsis :: after))
     = _parse_slicing d
         (wrap (before ++ replicate covered full_slice ++ after))).
Proof.
  intros Hwrap Hb Ha Hsl Hlen Hcase n covered kept.
  assert (apply_key (KSlice <$> slice_list d)
            (int_to_slice <$> (before ++ KEllipsis :: after))
          = Ok ((int_to_slice <$> before) ++ (KSlice <$> kept)
                ++ (int_to_slice <$> after))) as Hmerged.
  { subst kept covered n. rewrite <- Hsl.
    apply apply_key_ellipsis_fills; [done|done|lia|done]. }
  assert (_parse_slicing d (wrap (before ++ KEllipsis :: after))
          = (resolved ← resolve_loop (shape d) 0
                          ((int_to_slice <$> before) ++ (KSlice <$> kept)
                           ++ (int_to_slice <$> after));
             mret {| cls := cls d; path := path d; key := key d;
                     shape := fst <$> resolved;
                     slice_list := snd <$> resolved;
                     maxshape := maxshape d |})) as Hparse.
  { unfold _parse_slicing.
    rewrite unwrap_key_entries;
      [|done|by destruct before|rewrite length_app; simpl; lia].
    simpl. by rewrite Hmerged. }
  assert (length kept = covered) as Hkept.
  { subst kept. rewrite length_take, length_drop. subst covered n. lia. }
  split; [done|]. split.
  - (* axis by axis *)
    intros d'. rewrite Hparse.
    destruct (resolve_loop _ _ _) as [rs|] eqn:Hrs; simpl; [|done].
    intros [= <-]. simpl.
    pose proof (resolve_loop_length _ _ _ _ Hrs) as Hlen_rs.
    rewrite !length_app, !length_fmap, Hkept in Hlen_rs.
    rewrite length_fmap. split; [subst covered n; lia|]. split; [|split].
    + intros k x Hx.
      destruct (resolve_loop_lookup _ _ 0 rs k (int_to_slice x) Hrs)
        as (r & Hk & Hr).
      { rewrite lookup_app_l
          by (rewrite length_fmap; by eapply lookup_lt_Some).
        by rewrite list_lookup_fmap, Hx. }
      exists r. rewrite !list_lookup_fmap, Hk. done.
    + intros k sl Hk Hsl_k.
      destruct (resolve_loop_lookup _ _ 0 rs k (KSlice sl) Hrs)
        as (r & Hk' & Hr).
      { rewrite lookup_app_r by (rewrite length_fmap; lia).
        rewrite length_fmap.
        rewrite lookup_app_l by (rewrite length_fmap, Hkept; subst covered; lia).
        subst kept. rewrite list_lookup_fmap, lookup_take_lt, lookup_drop
          by (subst covered; lia).
        replace (length before + (k - length before))%nat with k by lia.
        by rewrite Hsl_k. }
      exists r. rewrite !list_lookup_fmap, Hk'. simpl in Hr.
      split; [done|]. split; [done|]. split; [done|].
      intros (a & b & s & -> & Ha' & Hb' & Hs).
      rewrite resolve_slice_resolved in Hr by done. by injection Hr as <-.
    + intros k x Hx.
      pose proof (lookup_lt_Some _ _ _ Hx) as Hk.
      destruct (resolve_loop_lookup _ _ 0 rs (n - length after + k)
                  (int_to_slice x) Hrs) as (r & Hk' & Hr).
      { rewrite lookup_app_r by (rewrite length_fmap; subst n; lia).
        rewrite length_fmap.
        rewrite lookup_app_r
          by (rewrite length_fmap, Hkept; subst covered n; lia).
        rewrite length_fmap, Hkept, list_lookup_fmap.
        replace (n - length after + k - length before - covered)%nat
          with k by (subst covered n; lia).
        by rewrite Hx. }
      exists r. rewrite !list_lookup_fmap, Hk'. done.
  - (* the ellipsis against explicit full slices *)
    intros Hfull. rewrite Hparse.
    unfold _parse_slicing.
    rewrite unwrap_key_entries; [|done|..]; cycle 1.
    { intros Heq. apply (f_equal length) in Heq.
      rewrite !length_app, length_replicate in Heq. simpl in Heq.
      subst covered n. lia. }
    { rewrite !length_app, length_replicate. subst covered n. lia. }
    simpl.
    rewrite apply_key_no_ellipsis; cycle 1.
    { apply no_ellipsis_int_to_slice.
      rewrite !Forall_app. split; [done|]. split; [|done].
      by apply Forall_replicate. }
    simpl.
    rewrite (drop_ge (KSlice <$> slice_list d)); cycle 1.
    { rewrite !length_fmap, !length_app, length_replicate, Hsl.
      subst covered n. lia. }
    rewrite app_nil_r.
    rewrite (resolve_loop_ext (shape d) 0 _
               (int_to_slice <$> before ++ replicate covered full_slice ++ after));
      [done|..].
    + rewrite !length_app, !length_fmap, !length_app, Hkept,
        length_replicate. done.
    + intros k x y Hx Hy. simpl.
      rewrite !fmap_app, fmap_replicate in Hy. simpl in Hy.
      destruct (decide (k < length before)%nat) as [Hk|Hk].
      { rewrite lookup_app_l in Hx by by rewrite length_fmap.
        rewrite lookup_app_l in Hy by by rewrite length_fmap. congruence. }
      rewrite lookup_app_r in Hx by (rewrite length_fmap; lia).
      rewrite lookup_app_r in Hy by (rewrite length_fmap; lia).
      rewrite length_fmap in Hx, Hy.
      destruct (decide (k - length before < covered)%nat) as [Hk'|Hk'].
      * rewrite lookup_app_l in Hx by (rewrite length_fmap, Hkept; lia).
        rewrite lookup_app_l in Hy by by rewrite length_replicate.
        apply lookup_replicate in Hy as [-> _].
        subst kept.
        rewrite list_lookup_fmap, lookup_take_lt, lookup_drop in Hx by done.
        replace (length before + (k - length before))%nat with k in Hx by lia.
        rewrite Hfull in Hx. unfold full_extent in Hx.
        rewrite list_lookup_fmap in Hx.
        destruct (shape d !! k) as [L|] eqn:HL; [|done].
        simpl in Hx. injection Hx as <-.
        by apply resolve_full_slice.
      * rewrite lookup_app_r in Hx by (rewrite length_fmap, Hkept; lia).
        rewrite lookup_app_r in Hy by (rewrite length_replicate; lia).
        rewrite length_fmap, Hkept in Hx.
        rewrite length_replicate in Hy.
        congruence.
Qed.

End parse_slicing.

Section parse_slicing_examples.

Import reference.

Lemma C4_ellipsis_fills_leading_and_trailing_witness :
  let d := {| cls := VirtualSource; path := "raw.h5"; key := "data";
              shape := [10; 3; 30; 40];
              slice_list := [Slice (Some 0) (Some 10) (Some 1);
                             Slice (Some 2) (Some 9) (Some 3);
                             Slice (Some 0) (Some 30) (Some 1);
                             Slice (Some 0) (Some 40) (Some 1)];
              maxshape := [10; 20; 30; 40] |} in
  _parse_slicing d (one_tuple [KInt 0; KEllipsis; KInt 1; KInt (-2)])
  = Ok {| cls := VirtualSource; path := "raw.h5"; key := "data";
          shape := [1; 3; 1; 1];
          slice_list := [Slice (Some 0) (Some 1) (Some 1);
                         Slice (Some 2) (Some 9) (Some 3);
                         Slice (Some 1) (Some 2) (Some 1);
                         Slice (Some 38) (Some 39) (Some 1)];
          maxshape := [10; 20; 30; 40] |}.
Proof.
  intros d.
  destruct (C4_ellipsis_fills_leading_and_trailing d one_tuple
              [KInt 0] [KInt 1; KInt (-2)]) as [H1 _].
  - by right.
  - repeat constructor.
  - repeat constructor.
  - reflexivity.
  - simpl. lia.
  - right. simpl. lia.
  - etrans; [exact H1|]. reflexivity.
Defined.

(** C4 does not hold as stated.  With more entries before the ellipsis
    than after it, as in [d[0, 1, ..., 2]], the entry after the ellipsis is
    not written: the last axis keeps its full extent, and the result
    differs from that of the key with an explicit full slice.  And on a
    descriptor that has been sliced before, an ellipsis does not stand for
    full slices: the axis is resolved from its current slice, where a full
    slice resets it. *)
Lemma C4_counterexample :
  let d := DatasetContainer__init__ VirtualSource "raw.h5" "data"
             [10; 20; 30; 40] None in
  (slice_list <$>
     _parse_slicing d (one_tuple [KInt 0; KInt 1; KEllipsis; KInt 2]))
  = Ok [Slice (Some 0) (Some 1) (Some 1);
        Slice (Some 1) (Some 2) (Some 1);
        Slice (Some 0) (Some 30) (Some 1);
        Slice (Some 0) (Some 40) (Some 1)]
  ∧ (slice_list <$>
       _parse_slicing d (one_tuple [KInt 0; KInt 1; full_slice; KInt 2]))
    = Ok [Slice (Some 0) (Some 1) (Some 1);
          Slice (Some 1) (Some 2) (Some 1);
          Slice (Some 0) (Some 30) (Some 1);
          Slice (Some 2) (Some 3) (Some 1)]
  ∧ ∃ d2,
      __getitem__ (DatasetContainer__init__ VirtualSource "raw.h5" "data"
                     [10] None)
        (Args [KSlice (Slice (Some 2) (Some 4) None)]) = Ok d2
      ∧ (slice_list <$> __getitem__ d2 (Args [KEllipsis]))
        = Ok [Slice (Some 2) (Some 4) (Some 1)]
      ∧ (slice_list <$> __getitem__ d2 (Args [full_slice]))
        = Ok [Slice (Some 0) (Some 2) (Some 1)].
Proof.
  intros d. split; [reflexivity|]. split; [reflexivity|].
  eexists. split; [reflexivity|]. split; reflexivity.
Qed.

End parse_slicing_examples.

Section error_classes.

Import reference.
Implicit Types key before after l merged : list key_item.
Implicit Types d : DatasetContainer.

Lemma int_to_slice_is_slice (ix : key_item) :
  is_ellipsis ix = false → ∃ s, int_to_slice ix = KSlice s.
Proof. destruct ix; simpl; eauto. done. Qed.

Lemma Forall_is_slice_int_to_slice key :
  Forall (λ ix, is_ellipsis ix = false) key →
  Forall (λ ix, ∃ s, ix = KSlice s) (int_to_slice <$> key).
Proof.
  intros H. apply Forall_fmap. eapply Forall_impl; [exact H|].
  intros ix Hix. by apply int_to_slice_is_slice.
Qed.

Lemma Forall_is_slice_fmap (sls : list pyslice) :
  Forall (λ ix, ∃ s, ix = KSlice s) (KSlice <$> sls).
Proof. apply Forall_fmap, Forall_true. simpl. eauto. Qed.

(** With at most one ellipsis the key is applied, the entries written
    are slices, and a key no longer than the slice list keeps its
    length. *)
Lemma apply_key_at_most_one (sls : list pyslice) (items : list key_item) :
  sum_bools (is_ellipsis <$> items) ≤ 1 →
  ∃ merged,
    apply_key (KSlice <$> sls) (int_to_slice <$> items) = Ok merged
    ∧ Forall (λ ix, ∃ s, ix = KSlice s) merged
    ∧ ((length items ≤ length sls)%nat → length merged = length sls).
Proof.
  intros [Hnone|(before & after & -> & Hb & Ha)]%at_most_one_ellipsis.
  - eexists. split; [by apply apply_key_no_ellipsis, no_ellipsis_int_to_slice|].
    split.
    + apply Forall_app. split; [by apply Forall_is_slice_int_to_slice|].
      apply Forall_drop, Forall_is_slice_fmap.
    + intros Hlen.
      rewrite length_app, length_drop, !length_fmap. lia.
  - rewrite fmap_app, fmap_cons. simpl.
    eexists. split;
      [by apply apply_key_one_ellipsis; apply no_ellipsis_int_to_slice|].
    pose proof (Forall_is_slice_int_to_slice _ Hb) as Hb'.
    pose proof (Forall_is_slice_int_to_slice _ Ha) as Ha'.
    pose proof (Forall_is_slice_fmap sls) as Hl.
    rewrite length_app. simpl.
    repeat case_decide; simpl.
    + split; [done|]. by rewrite length_fmap.
    + split.
      * apply Forall_app. split; [|done].
        apply Forall_take, Forall_app. split; [done|by apply Forall_drop].
      * intros Hlen.
        rewrite length_app, length_take, length_app, length_drop,
          !length_fmap. lia.
    + split.
      * apply Forall_app. split; [done|by apply Forall_drop].
      * intros Hlen. rewrite length_app, length_drop, !length_fmap. lia.
Qed.

Lemma ellipsis_test_int_to_slice key :
  is_ellipsis <$> (int_to_slice <$> key) = is_ellipsis <$> key.
Proof.
  rewrite <- list_fmap_compose. apply list_fmap_ext.
  intros _ ix _. simpl. apply is_ellipsis_int_to_slice.
Qed.

Lemma resolve_slice_raise_class (self_shape : list Z) (ix : nat) sl e :
  resolve_slice self_shape ix sl = Raise e → exn_cls e = IndexError.
Proof.
  unfold resolve_slice, or_default, wrap_negative, tuple_getitem.
  repeat (match goal with
          | |- context [if ?c then _ else _] => destruct c
          | |- context [match ?o with Some _ => _ | None => _ end] =>
              destruct o
          end; simpl);
    intros [= <-]; done.
Qed.

(** On an axis of the shape only a zero step makes the loop body fail. *)
Lemma resolve_slice_in_range (self_shape : list Z) (ix : nat) sl :
  (ix < length self_shape)%nat →
  (∃ r, resolve_slice self_shape ix sl = Ok r) ∨ step sl = Some 0.
Proof.
  intros [L HL]%lookup_lt_is_Some.
  unfold resolve_slice, or_default, wrap_negative, tuple_getitem.
  rewrite HL.
  destruct (step sl) as [s|] eqn:Hs; simpl.
  - destruct (Z.ltb_spec 0 s); [|destruct (Z.ltb_spec s 0)].
    + left. destruct (start sl), (stop sl); simpl;
        repeat (match goal with
                | |- context [if ?c then _ else _] => destruct c
                end; simpl); eauto.
    + left. destruct (start sl), (stop sl); simpl;
        repeat (match goal with
                | |- context [if ?c then _ else _] => destruct c
                end; simpl); eauto.
    + right. f_equal. lia.
  - left. destruct (start sl), (stop sl); simpl;
      repeat (match goal with
              | |- context [if ?c then _ else _] => destruct c
              end; simpl); eauto.
Qed.

Lemma resolve_slice_zero_step (self_shape : list Z) (ix : nat) sl :
  step sl = Some 0 →
  resolve_slice self_shape ix sl
  = Raise (Exn IndexError "A step of 0 is not valid").
Proof. intros Hs. unfold resolve_slice. by rewrite Hs. Qed.

Lemma resolve_loop_raise_class (self_shape : list Z) (ix : nat) l e :
  Forall (λ x, ∃ s, x = KSlice s) l →
  resolve_loop self_shape ix l = Raise e → exn_cls e = IndexError.
Proof.
  intros Hl. revert ix.
  induction Hl as [|x l [s ->] _ IH]; intros ix; simpl; [done|].
  destruct (resolve_slice _ _ _) as [r|e'] eqn:Hr; simpl.
  - destruct (resolve_loop _ _ _) as [rs|e'] eqn:Hrs; simpl; [done|].
    intros [= <-]. by eapply IH.
  - intros [= <-]. by eapply resolve_slice_raise_class.
Qed.

Lemma resolve_loop_zero_step (self_shape : list Z) (ix : nat) l sl :
  KSlice sl ∈ l → step sl = Some 0 →
  ∃ e, resolve_loop self_shape ix l = Raise e.
Proof.
  intros Hin Hs. revert ix.
  induction l as [|x l IH]; intros ix; [by apply elem_of_nil in Hin|].
  cbn [resolve_loop].
  apply elem_of_cons in Hin as [<-|Hin].
  - cbn [resolve_entry]. rewrite resolve_slice_zero_step by done.
    simpl. eauto.
  - destruct (resolve_entry _ _ _) as [r|e']; simpl; [|eauto].
    destruct (IH Hin (S ix)) as [e ->]. simpl. eauto.
Qed.

Lemma resolve_loop_in_range (self_shape : list Z) (ix : nat) l :
  Forall (λ x, ∃ s, x = KSlice s) l →
  (ix + length l ≤ length self_shape)%nat →
  (∃ rs, resolve_loop self_shape ix l = Ok rs)
  ∨ (∃ sl, KSlice sl ∈ l ∧ step sl = Some 0).
Proof.
  intros Hl. revert ix.
  induction Hl as [|x l [s ->] _ IH]; intros ix Hlen; simpl in *; [eauto|].
  destruct (resolve_slice_in_range self_shape ix s) as [[r Hr]|Hzero]; [lia|..].
  - rewrite Hr. simpl.
    destruct (IH (S ix)) as [[rs ->]|(sl & Hin & Hs)]; [lia|..].
    + simpl. eauto.
    + right. exists sl. split; [by right|done].
  - right. exists s. split; [by left|done].
Qed.

(** C8, as the code has it, for a descriptor whose slice list is as long
    as its shape and a key passed as the arguments or as one tuple (with
    further arguments or not), a tuple holding no more entries than the
    rank.  The rank check counts the arguments.  Parsing raises
    [ValueError] exactly when the arguments are no more than the rank, the
    key is not the empty argument list, and its entries hold more than one
    ellipsis.  It raises [IndexError] exactly when there are more
    arguments than the rank, or none, or the entries hold at most one
    ellipsis and one of the slices to be resolved has step 0.  No other
    class is raised.  So the zero-step failure has the class of the rank
    failure, and the failure for several ellipses has a different one. *)
Theorem C8_error_classes d (key : pykey) :
  length (slice_list d) = length (shape d) →
  match key with
  | Args _ => True
  | Packed items _ => (length items ≤ length (shape d))%nat
  end →
  let r := _parse_slicing d key in
  let rank := Z.of_nat (length (shape d)) in
  let items := key_items key in
  let ellipses := sum_bools (is_ellipsis <$> items) in
  let zero_step_applied :=
    ∃ merged sl,
      apply_key (KSlice <$> slice_list d) (int_to_slice <$> items) = Ok merged
      ∧ KSlice sl ∈ merged ∧ step sl = Some 0 in
  (raises r ValueError
   ↔ key ≠ Args [] ∧ key_len key ≤ rank ∧ 1 < ellipses)
  ∧ (raises r IndexError
     ↔ rank < key_len key ∨ key = Args []
       ∨ (ellipses ≤ 1 ∧ zero_step_applied))
  ∧ (∀ e, r = Raise e → exn_cls e = ValueError ∨ exn_cls e = IndexError).
Proof.
  intros Hsl Htuple r rank items ellipses zero_step_applied.
  (* the rank check *)
  destruct (decide (rank < key_len key)) as [Hrank|Hrank].
  { assert (r = Raise (Exn IndexError "Index rank is greater than dataset rank"))
      as Hr.
    { subst r. unfold _parse_slicing, unwrap_key. simpl.
      by rewrite (proj2 (Z.ltb_lt _ _)) by (fold rank; lia). }
    rewrite Hr. unfold raises. split; [|split].
    - split; [by intros [? [=]]|lia].
    - split; [by left|eauto].
    - intros e [= <-]. by right. }
  (* the empty argument list *)
  assert (key = Args [] ∨ key ≠ Args []) as [->|Hne].
  { destruct key as [[|x l]|l rest]; [by left|by right|by right]. }
  { assert (r = Raise (Exn IndexError "tuple index out of range")) as Hr.
    { subst r. unfold _parse_slicing, unwrap_key. simpl.
      by rewrite (proj2 (Z.ltb_ge _ _)) by lia. }
    rewrite Hr. unfold raises. split; [|split].
    - split; [by intros [? [=]]|by intros [? _]].
    - split; [by right; left|eauto].
    - intros e [= <-]. by right. }
  assert (unwrap_key rank key = Ok (int_to_slice <$> items)) as Hkey.
  { unfold unwrap_key. rewrite (proj2 (Z.ltb_ge _ _)) by lia.
    subst items. destruct key as [[|x l]|l rest]; done. }
  assert (length items ≤ length (slice_list d))%nat as Hitems.
  { rewrite Hsl. subst items rank.
    destruct key as [l|l rest]; simpl in *; lia. }
  assert (r = merged ← apply_key (KSlice <$> slice_list d)
                        (int_to_slice <$> items);
              resolved ← resolve_loop (shape d) 0 merged;
              mret {| cls := cls d; path := path d; key := group.key d;
                      shape := fst <$> resolved;
                      slice_list := snd <$> resolved;
                      maxshape := maxshape d |}) as Hr.
  { subst r. unfold _parse_slicing. fold rank. by rewrite Hkey. }
  (* several ellipses *)
  destruct (decide (1 < ellipses)) as [Hmany|Hfew].
  { rewrite Hr, apply_key_many_ellipsis
      by by rewrite ellipsis_test_int_to_slice.
    unfold raises. simpl.
    split; [|split].
    - split; [intros _; split; [done|split; [lia|done]]|eauto].
    - split; [by intros [? [=]]|].
      intros [?|[?|[? _]]]; [lia|done|lia].
    - intros e [= <-]. by left. }
  destruct (apply_key_at_most_one (slice_list d) items)
    as (merged & Hmerged & Hslices & Hlen); [lia|].
  rewrite Hr, Hmerged. simpl.
  destruct (resolve_loop_in_range (shape d) 0 merged Hslices)
    as [[rs Hrs]|(sl & Hin & Hzero)].
  { rewrite Hlen by lia. lia. }
  - (* the loop succeeds: no zero step has been applied *)
    rewrite Hrs. simpl. unfold raises. split; [|split].
    + split; [by intros [? [=]]|lia].
    + split; [by intros [? [=]]|].
      intros [?|[?|[_ (merged' & sl & Hm & Hin & Hzero)]]]; [lia|done|].
      rewrite Hmerged in Hm. injection Hm as <-.
      destruct (resolve_loop_zero_step (shape d) 0 merged sl Hin Hzero)
        as [e He].
      congruence.
    + done.
  - (* a zero step has been applied *)
    destruct (resolve_loop_zero_step (shape d) 0 merged sl Hin Hzero)
      as [e He].
    pose proof (resolve_loop_raise_class _ _ _ _ Hslices He) as Hcls.
    rewrite He. simpl. unfold raises. split; [|split].
    + split; [|lia]. intros [msg [= ->]]. done.
    + split; [|destruct e as [c msg]; simpl in Hcls; subst c; eauto].
      intros _. right; right. split; [lia|].
      exists merged, sl. done.
    + intros e' [= <-]. by right.
Qed.

End error_classes.

Section error_class_examples.

Import reference.

Lemma C8_error_classes_witness :
  let d := DatasetContainer__init__ VirtualSource "raw.h5" "data"
             [10; 20] None in
  raises (_parse_slicing d (Args [KSlice (Slice None None (Some 0))]))
    IndexError
  ∧ raises (_parse_slicing d
              (one_tuple [KInt 0; KSlice (Slice None None (Some 0))]))
      IndexError
  ∧ raises (_parse_slicing d (one_tuple [KEllipsis; KEllipsis])) ValueError
  ∧ raises (_parse_slicing d (Args [KInt 0; KInt 1; KInt 2])) IndexError.
Proof.
  intros d. split; [|split; [|split]].
  - apply (C8_error_classes d (Args [KSlice (Slice None None (Some 0))])
             eq_refl I).
    right; right. split; [simpl; lia|].
    eexists _, (Slice None None (Some 0)).
    split; [reflexivity|]. split; [by left|done].
  - assert (2 ≤ 2)%nat as Hlen by lia.
    apply (C8_error_classes d
             (one_tuple [KInt 0; KSlice (Slice None None (Some 0))])
             eq_refl Hlen).
    right; right. split; [simpl; lia|].
    eexists _, (Slice None None (Some 0)).
    split; [reflexivity|]. split; [by right; left|done].
  - assert (2 ≤ 2)%nat as Hlen by lia.
    apply (C8_error_classes d (one_tuple [KEllipsis; KEllipsis])
             eq_refl Hlen).
    split; [done|]. split; simpl; lia.
  - apply (C8_error_classes d (Args [KInt 0; KInt 1; KInt 2]) eq_refl I).
    left. simpl. lia.
Defined.

(** C8 does not hold as stated: the zero-step failure and the failure for
    several ellipses raise different classes, the zero-step failure
    raises the class of the rank failure, and a key that reaches
    [__getitem__] as one tuple, as [d[0, 1, 2]] does, is not checked
    against the rank. *)
Lemma C8_counterexample :
  let d := DatasetContainer__init__ VirtualSource "raw.h5" "data"
             [10; 20] None in
  _parse_slicing d (Args [KSlice (Slice None None (Some 0))])
  = Raise (Exn IndexError "A step of 0 is not valid")
  ∧ _parse_slicing d (one_tuple [KEllipsis; KEllipsis])
    = Raise (Exn ValueError "Only use of one Ellipsis(...) supported.")
  ∧ _parse_slicing d (Args [KInt 0; KInt 1; KInt 2])
    = Raise (Exn IndexError "Index rank is greater than dataset rank")
  ∧ IndexError ≠ ValueError
  ∧ (shape <$> __getitem__ d (one_tuple [KInt 0; KInt 1; KInt 2]))
    = Ok [1; 1; 1].
Proof. by repeat split. Qed.

End error_class_examples.

Section full_extent_key.

Import reference.
Implicit Types d : DatasetContainer.

(** A resolved slice with non-negative bounds resolves to itself. *)
Lemma resolve_loop_resolved (self_shape : list Z) (ix : nat)
    (sls : list pyslice) :
  Forall resolved_nonneg sls →
  resolve_loop self_shape ix (KSlice <$> sls)
  = Ok ((λ sl, (resolved_length sl, sl)) <$> sls).
Proof.
  intros Hsls. revert ix.
  induction Hsls as [|sl sls (a & b & s & -> & Ha & Hb & Hs) _ IH];
    intros ix; [done|].
  rewrite !fmap_cons. cbn [resolve_loop resolve_entry].
  rewrite resolve_slice_resolved by done. simpl.
  by rewrite IH.
Qed.

(** Every length the loop body gives is the length of the slice it
    gives. *)
Lemma resolve_slice_consistent (self_shape : list Z) (ix : nat) sl r :
  resolve_slice self_shape ix sl = Ok r → r.1 = resolved_length r.2.
Proof.
  unfold resolve_slice.
  destruct (Z.ltb_spec 0 (default 1 (step sl))) as [Hpos|Hle].
  - destruct (or_default (start sl) _) as [a0|]; simpl; [|done].
    destruct (or_default (stop sl) _) as [b0|]; simpl; [|done].
    destruct (wrap_negative _ _ a0) as [a|]; simpl; [|done].
    destruct (wrap_negative _ _ b0) as [b|]; simpl; [|done].
    intros [= <-]. simpl. unfold axis_length.
    rewrite (proj2 (Z.ltb_lt _ _) Hpos).
    by rewrite floor_form_is_ceil.
  - destruct (Z.ltb_spec (default 1 (step sl)) 0) as [Hneg|Hge]; [|done].
    destruct (or_default (stop sl) _) as [b0|]; simpl; [|done].
    destruct (or_default (start sl) _) as [a0|]; simpl; [|done].
    destruct (wrap_negative _ _ a0) as [a|]; simpl; [|done].
    destruct (wrap_negative _ _ b0) as [b|]; simpl; [|done].
    intros [= <-]. simpl. unfold axis_length.
    rewrite (proj2 (Z.ltb_ge _ _) Hle).
    replace (a - b - default 1 (step sl) - 1)
      with (a - b + - default 1 (step sl) - 1) by lia.
    by rewrite floor_form_is_ceil by lia.
Qed.

Lemma resolve_loop_consistent (self_shape : list Z) (ix : nat)
    (l : list key_item) rs :
  resolve_loop self_shape ix l = Ok rs →
  fst <$> rs = resolved_length <$> (snd <$> rs).
Proof.
  revert ix rs. induction l as [|x l IH]; intros ix rs; simpl.
  - by intros [= <-].
  - destruct (resolve_entry _ _ _) as [r|] eqn:Hr; simpl; [|done].
    destruct (resolve_loop _ _ _) as [rs'|] eqn:Hrs; simpl; [|done].
    intros [= <-]. rewrite !fmap_cons. f_equal; [|by eapply IH].
    destruct x; simpl in Hr; try done.
    by eapply resolve_slice_consistent.
Qed.

Lemma parse_slicing_consistent d0 key d :
  _parse_slicing d0 key = Ok d →
  cls d = cls d0 ∧ shape d = resolved_length <$> slice_list d.
Proof.
  unfold _parse_slicing.
  destruct (unwrap_key _ _) as [k|]; simpl; [|done].
  destruct (apply_key _ _) as [merged|]; simpl; [|done].
  destruct (resolve_loop _ _ _) as [rs|] eqn:Hrs; simpl; [|done].
  intros [= <-]. simpl. split; [done|]. by eapply resolve_loop_consistent.
Qed.

Lemma full_extent_consistent (shape : list Z) :
  Forall resolved_nonneg (full_extent shape) →
  shape = resolved_length <$> full_extent shape.
Proof.
  unfold full_extent. induction shape as [|L shape IH]; [done|].
  rewrite !fmap_cons.
  intros [(a & b & s & [= <- <- <-] & _ & HL & _) Hrest]%Forall_cons.
  f_equal; [|by apply IH].
  simpl. unfold axis_length. simpl.
  destruct (Z.ltb_spec 0 L); [|lia].
  unfold ceil_div. rewrite Z.div_1_r. lia.
Qed.

(** The key [...] on a descriptor of rank at least one whose slices are
    resolved with non-negative bounds: the slice list is kept and the
    shape is recomputed from it. *)
Lemma parse_slicing_ellipsis d :
  shape d ≠ [] →
  Forall resolved_nonneg (slice_list d) →
  _parse_slicing d (Args [KEllipsis])
  = Ok {| cls := cls d; path := path d; key := key d;
          shape := resolved_length <$> slice_list d;
          slice_list := slice_list d;
          maxshape := maxshape d |}.
Proof.
  intros Hrank Hsls. unfold _parse_slicing.
  rewrite unwrap_key_args; [|done|destruct (shape d); simpl; [done|lia]].
  simpl. change (apply_key ?l [KEllipsis]) with (Ok l). simpl.
  rewrite resolve_loop_resolved by done. simpl.
  rewrite <- !list_fmap_compose. simpl.
  do 2 f_equal. by rewrite list_fmap_id.
Qed.

(** C10, as the code has it: a descriptor made by construction or by an
    earlier indexing, of rank at least one, whose slices are resolved
    with non-negative bounds and non-zero steps, is returned unchanged by
    the key [...]: same shape, same slice list, and the other fields as
    they were. *)
Theorem C10_full_extent_key_is_identity d :
  produced d →
  shape d ≠ [] →
  Forall resolved_nonneg (slice_list d) →
  __getitem__ d (Args [KEllipsis]) = Ok d.
Proof.
  intros Hd Hrank Hsls. unfold __getitem__.
  rewrite parse_slicing_ellipsis by done.
  destruct (cls d) eqn:Hcls; simpl; [|by destruct d; simpl in *; subst].
  assert (shape d = resolved_length <$> slice_list d) as <-;
    [|by destruct d; simpl in *; subst].
  destruct Hd as [c path key shape maxshape|d0 key d Hget].
  - by apply full_extent_consistent.
  - unfold __getitem__ in Hget. destruct (cls d0) eqn:Hcls0.
    + by apply parse_slicing_consistent in Hget as [_ ?].
    + destruct (_parse_slicing d0 key) as [tmp|] eqn:Htmp; [|done].
      apply parse_slicing_consistent in Htmp as [Htmp _].
      simpl in Hget. injection Hget as <-. simpl in Hcls. congruence.
Qed.

Lemma C10_full_extent_key_is_identity_witness :
  ∃ d,
    __getitem__ (DatasetContainer__init__ VirtualSource "raw.h5" "data"
                   [10; 20] None)
      (Packed [KSlice (Slice (Some 2) (Some 9) (Some 3)); KInt 4] 0) = Ok d
    ∧ shape d = [3; 1]
    ∧ __getitem__ d (Args [KEllipsis]) = Ok d.
Proof.
  exists {| cls := VirtualSource; path := "raw.h5"; key := "data";
            shape := [3; 1];
            slice_list := [Slice (Some 2) (Some 9) (Some 3);
                           Slice (Some 4) (Some 5) (Some 1)];
            maxshape := [10; 20] |}.
  split; [reflexivity|]. split; [reflexivity|].
  apply C10_full_extent_key_is_identity.
  - apply (produced_getitem
             (DatasetContainer__init__ VirtualSource "raw.h5" "data"
                [10; 20] None)
             (Packed [KSlice (Slice (Some 2) (Some 9) (Some 3)); KInt 4] 0)).
    reflexivity.
  - done.
  - repeat constructor;
      eexists _, _, _; (split; [reflexivity|]); simpl; lia.
Defined.

(** C10 does not hold as stated for a descriptor of rank 0: its slice
    list is empty, and the key [...] has one entry more than the rank. *)
Lemma C10_counterexample :
  let d := DatasetContainer__init__ VirtualSource "raw.h5" "data" [] None in
  produced d
  ∧ Forall resolved_nonneg (slice_list d)
  ∧ __getitem__ d (Args [KEllipsis])
    = Raise (Exn IndexError "Index rank is greater than dataset rank").
Proof.
  intros d. split; [constructor|]. split; [constructor|reflexivity].
Qed.

End full_extent_key.

Section virtual_map.

Import reference.
Implicit Types vs vt src tgt : DatasetContainer.

Lemma any_unlimited_false (maxshape : list Z) :
  UNLIMITED ∉ maxshape →
  any ((λ ix, ix =? UNLIMITED) <$> maxshape) = false.
Proof.
  induction maxshape as [|x l IH]; [done|].
  intros [Hx Hl]%not_elem_of_cons. rewrite fmap_cons. unfold any in *. simpl.
  rewrite IH by done. by rewrite (proj2 (Z.eqb_neq _ _)) by done.
Qed.

Lemma any_unlimited_true (maxshape : list Z) :
  UNLIMITED ∈ maxshape →
  any ((λ ix, ix =? UNLIMITED) <$> maxshape) = true.
Proof.
  induction maxshape as [|x l IH]; [by intros ?%elem_of_nil|].
  intros [->|Hl]%elem_of_cons; rewrite fmap_cons; unfold any in *; simpl.
  - by rewrite Z.eqb_refl.
  - rewrite IH by done. by rewrite orb_true_r.
Qed.

Lemma tuple_index_only_unbounded (maxshape : list Z) (u : nat) :
  only_unbounded maxshape u → tuple_index maxshape UNLIMITED = Ok u.
Proof.
  intros [Hu Hother]. unfold tuple_index.
  destruct (list_find _ _) as [[i x]|] eqn:Hfind.
  - apply list_find_Some in Hfind as (Hi & -> & _).
    destruct (decide (i = u)) as [->|Hne]; [done|].
    by destruct (Hother i Hne).
  - apply list_find_None in Hfind.
    by destruct (proj1 (Forall_lookup _ _) Hfind u UNLIMITED Hu).
Qed.

Lemma only_unbounded_elem_of (maxshape : list Z) (u : nat) :
  only_unbounded maxshape u → UNLIMITED ∈ maxshape ∧ (u < length maxshape)%nat.
Proof.
  intros [Hu _]. split; [by eapply list_elem_of_lookup_2|].
  by eapply lookup_lt_Some.
Qed.

(** The selection arguments in the absence of an unbounded source axis. *)
Lemma source_selection_bounded src (block : option (list Z)) :
  UNLIMITED ∉ maxshape src →
  source_selection src block
  = Ok {| hs_start := start <$> slice_list src;
          hs_count := replicate (length (slice_list src)) 1;
          hs_stride := step <$> slice_list src;
          hs_block := block |}.
Proof.
  intros Hbounded. unfold source_selection.
  rewrite any_unlimited_false by done. simpl.
  by rewrite length_fmap.
Qed.

(** The selection arguments when the source has one unbounded axis [u]
    and the block shape has an entry at [u]. *)
Lemma source_selection_unbounded src (u : nat) (bs : list Z) :
  only_unbounded (maxshape src) u →
  (u < length (slice_list src))%nat →
  (u < length bs)%nat →
  source_selection src (Some bs)
  = Ok {| hs_start := start <$> slice_list src;
          hs_count := <[u := UNLIMITED]> (replicate (length (slice_list src)) 1);
          hs_stride := step <$> slice_list src;
          hs_block := Some (<[u := 1]> bs) |}.
Proof.
  intros Hu Hlen Hbs. unfold source_selection.
  rewrite any_unlimited_true by by eapply (only_unbounded_elem_of _ u).
  rewrite (tuple_index_only_unbounded _ u) by done. simpl.
  unfold list_setitem.
  rewrite !decide_True by (rewrite ?length_replicate, ?length_fmap; lia).
  simpl. by rewrite length_fmap.
Qed.

(** The block of the selection is the block shape given, with at most one
    entry overwritten. *)
Lemma source_selection_block_length src (bs : list Z) sel :
  source_selection src (Some bs) = Ok sel →
  ∃ b, hs_block sel = Some b ∧ length b = length bs.
Proof.
  unfold source_selection.
  destruct (any _); simpl.
  - destruct (tuple_index _ _) as [u|]; simpl; [|done].
    unfold list_setitem. repeat case_decide; simpl; try done.
    intros [= <-]. simpl. eexists. split; [done|]. by rewrite length_insert.
  - intros [= <-]. simpl. eauto.
Qed.

(** The constructor, once the two descriptors are re-sliced and the
    selection arguments are computed: the map is built exactly when h5py
    accepts the two calls, and it then holds the block of the selection as
    its block shape. *)
Lemma VirtualMap_built (h5 : h5py) vs vt (dt : string) src tgt sel :
  __getitem__ vs (Args [KEllipsis]) = Ok src →
  __getitem__ vt (Args [KEllipsis]) = Ok tgt →
  source_selection src (pad_block_shape src tgt) = Ok sel →
  ∀ vm,
    VirtualMap__init__ h5 vs vt dt = Ok vm
    ↔ create_simple_error h5 (shape src) (maxshape src) = None
      ∧ select_hyperslab_error h5
          {| ds_shape := shape src; ds_maxshape := maxshape src;
             ds_selection := None |} sel = None
      ∧ vm = {| src := src; dtype := dt; target := tgt;
                block_shape := hs_block sel;
                src_dspace :=
                  {| ds_shape := shape src; ds_maxshape := maxshape src;
                     ds_selection := Some sel |} |}.
Proof.
  intros Hsrc Htgt Hsel vm. unfold VirtualMap__init__.
  rewrite Hsrc, Htgt. simpl. unfold create_simple.
  destruct (create_simple_error _ _ _) as [e|]; simpl.
  { split; [done|]. by intros [? _]. }
  rewrite Hsel. simpl. unfold select_hyperslab.
  destruct (select_hyperslab_error _ _ _) as [e|]; simpl.
  { split; [done|]. by intros (_ & ? & _). }
  split; [by intros [= <-]|]. by intros (_ & _ & ->).
Qed.

(** When h5py refuses a call the constructor raises. *)
Lemma VirtualMap_refused (h5 : h5py) vs vt (dt : string) src tgt sel e :
  __getitem__ vs (Args [KEllipsis]) = Ok src →
  __getitem__ vt (Args [KEllipsis]) = Ok tgt →
  source_selection src (pad_block_shape src tgt) = Ok sel →
  select_hyperslab_error h5
    {| ds_shape := shape src; ds_maxshape := maxshape src;
       ds_selection := None |} sel = Some e →
  ∃ e', VirtualMap__init__ h5 vs vt dt = Raise e'
        ∧ (create_simple_error h5 (shape src) (maxshape src) = None → e' = e).
Proof.
  intros Hsrc Htgt Hsel Hrefused. unfold VirtualMap__init__.
  rewrite Hsrc, Htgt. simpl. unfold create_simple.
  destruct (create_simple_error _ _ _) as [e0|]; simpl.
  { exists e0. by split. }
  rewrite Hsel. simpl. unfold select_hyperslab. rewrite Hrefused.
  exists e. by split.
Qed.

Lemma pad_block_shape_cases src tgt :
  let rs := length (shape src) in
  let rt := length (shape tgt) in
  ((rs < rt)%nat → rs ≠ 1%nat →
   pad_block_shape src tgt = Some (replicate (rt - rs) 1 ++ shape src))
  ∧ ((rs < rt)%nat → rs = 1%nat → pad_block_shape src tgt = None)
  ∧ (rs = rt → pad_block_shape src tgt = Some (shape src))
  ∧ ((rt < rs)%nat → rt ≠ 1%nat → pad_block_shape src tgt = Some (shape tgt)).
Proof.
  intros rs rt. unfold pad_block_shape. fold rs rt.
  split; [|split; [|split]].
  - intros Hlt Hne.
    rewrite (proj2 (Z.ltb_lt _ _)) by lia.
    rewrite (proj2 (Nat.eqb_neq _ _)) by done.
    unfold tuple_repeat. do 3 f_equal. lia.
  - intros Hlt Heq.
    rewrite (proj2 (Z.ltb_lt _ _)) by lia.
    by rewrite (proj2 (Nat.eqb_eq _ _)) by done.
  - intros Heq.
    rewrite (proj2 (Z.ltb_ge _ _)) by lia.
    by rewrite (proj2 (Z.ltb_ge _ _)) by lia.
  - intros Hlt Hne.
    rewrite (proj2 (Z.ltb_ge _ _)) by lia.
    rewrite (proj2 (Z.ltb_lt _ _)) by lia.
    rewrite (proj2 (Nat.eqb_neq _ _)) by done.
    unfold tuple_repeat.
    by replace (Z.to_nat (Z.of_nat rt - Z.of_nat rs)) with 0%nat by lia.
Qed.

Lemma argument_lengths_checked_block : checks_block_rank argument_lengths_checked.
Proof.
  intros space sel b Hb Hlen. simpl. rewrite Hb. simpl.
  rewrite (proj2 (Nat.eqb_neq _ _) Hlen), !andb_false_r. eauto.
Qed.




End virtual_map.

Section unbounded_axis.

Import reference.
Implicit Types vs vt src tgt : DatasetContainer.

(** The count and block that [create_virtual_dataset] selects on the
    target side. *)
Lemma target_hyperslab_unbounded (vm : VirtualMap) (u : nat) :
  only_unbounded (maxshape (target vm)) u →
  (u < length (slice_list (target vm)))%nat →
  target_hyperslab vm
  = Ok {| hs_start := start <$> slice_list (target vm);
          hs_count :=
            <[u := UNLIMITED]>
              (replicate (length (slice_list (target vm))) 1);
          hs_stride := step <$> slice_list (target vm);
          hs_block := block_shape vm |}.
Proof.
  intros Hu Hlen. unfold target_hyperslab.
  rewrite any_unlimited_true by by eapply (only_unbounded_elem_of _ u).
  rewrite (tuple_index_only_unbounded _ u) by done. simpl.
  unfold list_setitem.
  rewrite decide_True by (rewrite length_replicate, length_fmap; lia).
  simpl. by rewrite length_fmap.
Qed.

(** C3, as the code has it, for descriptors whose shape, slice list and
    maximal shape have one length and whose maximal shape has one
    unbounded axis [u].  On the source side, for a source and a target of
    equal rank, the selection arguments have a count that is unbounded at
    [u] and 1 elsewhere and a block that is the source shape with the entry
    of axis [u] set to 1; the map is built exactly when h5py accepts the
    two calls, and holds that block as its block shape.  On the target
    side the count is again unbounded at [u] and 1 elsewhere, and the
    block is the block shape of the map as it is: it is the source side
    that sets it. *)
Theorem C3_unbounded_axis_count_and_block :
  (∀ (h5 : h5py) vs vt (dt : string) src tgt (u : nat),
     __getitem__ vs (Args [KEllipsis]) = Ok src →
     __getitem__ vt (Args [KEllipsis]) = Ok tgt →
     only_unbounded (maxshape src) u →
     length (maxshape src) = length (shape src) →
     length (slice_list src) = length (shape src) →
     length (shape src) = length (shape tgt) →
     let sel := {| hs_start := start <$> slice_list src;
                   hs_count :=
                     <[u := UNLIMITED]> (replicate (length (shape src)) 1);
                   hs_stride := step <$> slice_list src;
                   hs_block := Some (<[u := 1]> (shape src)) |} in
     (u < length (shape src))%nat
     ∧ source_selection src (pad_block_shape src tgt) = Ok sel
     ∧ ∀ vm,
         VirtualMap__init__ h5 vs vt dt = Ok vm
         ↔ create_simple_error h5 (shape src) (maxshape src) = None
           ∧ select_hyperslab_error h5
               {| ds_shape := shape src; ds_maxshape := maxshape src;
                  ds_selection := None |} sel = None
           ∧ vm = {| src := src; dtype := dt; target := tgt;
                     block_shape := Some (<[u := 1]> (shape src));
                     src_dspace :=
                       {| ds_shape := shape src;
                          ds_maxshape := maxshape src;
                          ds_selection := Some sel |} |})
  ∧ (∀ (vm : VirtualMap) (u : nat),
       only_unbounded (maxshape (target vm)) u →
       length (maxshape (target vm)) = length (slice_list (target vm)) →
       ∃ h,
         target_hyperslab vm = Ok h
         ∧ hs_count h
           = <[u := UNLIMITED]>
               (replicate (length (slice_list (target vm))) 1)
         ∧ (u < length (slice_list (target vm)))%nat
         ∧ hs_block h = block_shape vm)
  ∧ UNLIMITED ≠ 1.
Proof.
  split; [|split; [|done]].
  - intros h5 vs vt dt src tgt u Hsrc Htgt Hu Hmax Hsl Hranks sel.
    destruct (only_unbounded_elem_of _ _ Hu) as [_ Hlt].
    assert (source_selection src (pad_block_shape src tgt) = Ok sel) as Hsel.
    { rewrite (proj1 (proj2 (proj2 (pad_block_shape_cases src tgt)))) by done.
      rewrite (source_selection_unbounded src u) by (done || lia).
      subst sel. by rewrite Hsl. }
    split; [lia|]. split; [done|]. intros vm.
    apply (VirtualMap_built h5 vs vt dt src tgt sel Hsrc Htgt Hsel).
  - intros vm u Hu Hlen.
    destruct (only_unbounded_elem_of _ _ Hu) as [_ Hlt].
    eexists. split; [apply target_hyperslab_unbounded; [done|lia]|].
    simpl. split; [done|]. split; [lia|done].
Qed.

Lemma C3_unbounded_axis_count_and_block_witness :
  ∃ vm,
    VirtualMap__init__ argument_lengths_checked
      (DatasetContainer__init__ VirtualSource "raw.h5" "data" [10; 10]
         (Some [None; Some 10]))
      (DatasetContainer__init__ VirtualTarget "vds.h5" "full" [10; 10] None)
      "uint16" = Ok vm
    ∧ (hs_count <$> ds_selection (src_dspace vm)) = Some [UNLIMITED; 1]
    ∧ block_shape vm = Some [1; 10].
Proof.
  destruct (proj1 C3_unbounded_axis_count_and_block
              argument_lengths_checked
              (DatasetContainer__init__ VirtualSource "raw.h5" "data"
                 [10; 10] (Some [None; Some 10]))
              (DatasetContainer__init__ VirtualTarget "vds.h5" "full"
                 [10; 10] None)
              "uint16" _ _ 0%nat eq_refl eq_refl)
    as (_ & _ & Hbuilt).
  - split; [reflexivity|].
    intros [|[|j]] Hj; simpl; [done|unfold UNLIMITED; by intros [=]|done].
  - reflexivity.
  - reflexivity.
  - reflexivity.
  - eexists. split; [apply Hbuilt; by repeat split|].
    split; reflexivity.
Defined.

(** C3 does not hold as stated.  On the target side, with an unbounded
    target axis and a bounded source, the count is unbounded on that axis
    and the block passed with it keeps the entry of the block shape, which
    is not 1.  On the source side, when the block shape has been padded
    for a target of higher rank, the entry set to 1 is the one at the index
    the unbounded axis has in the source: for the source shape (10, 10)
    with axis 1 unbounded and a target of rank 3, the block passed is
    (1, 1, 10), where axis 1 of the source has the last entry. *)
Lemma C3_counterexample :
  (∃ vm,
     VirtualMap__init__ argument_lengths_checked
       (DatasetContainer__init__ VirtualSource "raw.h5" "data" [10; 10] None)
       (DatasetContainer__init__ VirtualTarget "vds.h5" "full" [10; 10]
          (Some [None; Some 10]))
       "uint16" = Ok vm
     ∧ only_unbounded (maxshape (target vm)) 0
     ∧ (hs_count <$> target_hyperslab vm) = Ok [UNLIMITED; 1]
     ∧ (hs_block <$> target_hyperslab vm) = Ok (Some [10; 10]))
  ∧ (let src := DatasetContainer__init__ VirtualSource "raw.h5" "data"
                  [10; 10] (Some [Some 10; None]) in
     let tgt := DatasetContainer__init__ VirtualTarget "vds.h5" "full"
                  [5; 10; 10] None in
     only_unbounded (maxshape src) 1
     ∧ (hs_block <$> source_selection src (pad_block_shape src tgt))
       = Ok (Some [1; 1; 10])).
Proof.
  split.
  - eexists. split; [reflexivity|]. split; [|split; reflexivity].
    split; [reflexivity|].
    intros [|[|j]] Hj; simpl; [done|unfold UNLIMITED; by intros [=]|done].
  - split; [|reflexivity]. split; [reflexivity|].
    intros [|[|j]] Hj; simpl; [unfold UNLIMITED; by intros [=]|done|done].
Qed.

End unbounded_axis.

Section copy_on_slice.

Import reference store.
Implicit Types σ : store.store.
Implicit Types o : object.

Lemma bind_Some {A B} (m : M A) (f : A → M B) σ a σ' :
  m σ = Some (Ok a, σ') → (m ≫= f) σ = f a σ'.
Proof. intros H. unfold mbind, M_bind. by rewrite H. Qed.

Lemma bind_Raise {A B} (m : M A) (f : A → M B) σ e σ' :
  m σ = Some (Raise e, σ') → (m ≫= f) σ = Some (Raise e, σ').
Proof. intros H. unfold mbind, M_bind. by rewrite H. Qed.

Lemma read_object_Some σ r o :
  objects σ !! r = Some o → read_object r σ = Some (Ok o, σ).
Proof. intros H. unfold read_object. by rewrite H. Qed.

Lemma read_list_Some σ r l :
  lists σ !! r = Some l → read_list r σ = Some (Ok l, σ).
Proof. intros H. unfold read_list. by rewrite H. Qed.

Lemma write_list_Some σ r l0 l :
  lists σ !! r = Some l0 → write_list r l σ = Some (Ok (), set_list σ r l).
Proof. intros H. unfold write_list. by rewrite H. Qed.

Lemma write_object_Some σ r o0 o :
  objects σ !! r = Some o0 →
  write_object r o σ = Some (Ok (), set_object σ r o).
Proof. intros H. unfold write_object. by rewrite H. Qed.

Lemma set_list_id σ r l : lists σ !! r = Some l → set_list σ r l = σ.
Proof.
  intros H. destruct σ as [os ls]. unfold set_list. simpl in *.
  by rewrite insert_id.
Qed.

Lemma set_list_set_list σ r l1 l2 :
  set_list (set_list σ r l1) r l2 = set_list σ r l2.
Proof. unfold set_list. simpl. by rewrite insert_insert_eq. Qed.

Lemma mapM_as_slice (sls : list pyslice) :
  mapM as_slice (KSlice <$> sls) = Some sls.
Proof.
  induction sls as [|sl sls IH]; [done|].
  rewrite fmap_cons. simpl. by rewrite IH.
Qed.

Lemma mapM_as_slice_inv (l : list key_item) (sls : list pyslice) :
  mapM as_slice l = Some sls → l = KSlice <$> sls.
Proof.
  revert sls. induction l as [|x l IH]; intros sls; simpl.
  - by intros [= <-].
  - destruct x as [|s|]; simpl; try done.
    destruct (mapM as_slice l) as [sls'|]; simpl; [|done].
    intros [= <-]. rewrite fmap_cons. f_equal. by apply IH.
Qed.

(** The loop over the store computes what the loop over values does, and
    writes to the list of [tmp] only. *)
Lemma resolve_loop_store (self tmp : loc) o o_tmp (todo : list key_item) :
  ∀ (ix : nat) (acc : list Z) (done : list key_item) σ,
    objects σ !! self = Some o →
    objects σ !! tmp = Some o_tmp →
    lists σ !! o_slice_list o_tmp = Some (done ++ todo) →
    length done = ix →
    ∃ l',
      store.resolve_loop self tmp (length todo) ix acc σ
      = Some ((λ rs, acc ++ (fst <$> rs))
                <$> group.resolve_loop (o_shape o) ix todo,
              set_list σ (o_slice_list o_tmp) l')
      ∧ ∀ rs, group.resolve_loop (o_shape o) ix todo = Ok rs →
              l' = done ++ (KSlice <$> (snd <$> rs)).
Proof.
  induction todo as [|x todo IH]; intros ix acc done σ Hself Htmp Hl Hix.
  - exists (done ++ []). simpl. split.
    + rewrite set_list_id by done. by rewrite app_nil_r.
    + by intros rs [= <-].
  - cbn [length store.resolve_loop group.resolve_loop].
    rewrite (bind_Some _ _ _ _ _ (read_object_Some _ _ _ Htmp)).
    rewrite (bind_Some _ _ _ _ _ (read_list_Some _ _ _ Hl)).
    assert (list_getitem (done ++ x :: todo) ix = Ok x) as Hget.
    { unfold list_getitem.
      by rewrite lookup_app_r, Hix, Nat.sub_diag by lia. }
    rewrite (bind_Some _ _ σ x σ) by (unfold lift_res; by rewrite Hget).
    rewrite (bind_Some _ _ _ _ _ (read_object_Some _ _ _ Hself)).
    destruct (resolve_entry (o_shape o) ix x) as [r|e] eqn:Hr.
    + rewrite (bind_Some _ _ σ r σ) by done.
      rewrite (bind_Some _ _ _ _ _ (write_list_Some _ _ _ _ Hl)).
      assert (<[ix := KSlice r.2]> (done ++ x :: todo)
              = (done ++ [KSlice r.2]) ++ todo) as Hins.
      { rewrite insert_app_r_alt, Hix, Nat.sub_diag by lia.
        by rewrite <- app_assoc. }
      rewrite Hins.
      destruct (IH (S ix) (acc ++ [r.1]) (done ++ [KSlice r.2])
                  (set_list σ (o_slice_list o_tmp)
                     ((done ++ [KSlice r.2]) ++ todo)))
        as (l' & Hloop & Hl'); [done|done|..].
      { simpl. by rewrite lookup_insert_eq. }
      { rewrite length_app. simpl. lia. }
      exists l'. split.
      * rewrite Hloop, set_list_set_list. simpl.
        destruct (group.resolve_loop _ _ _) as [rs|]; simpl; [|done].
        by rewrite <- app_assoc.
      * simpl. destruct (group.resolve_loop _ _ _) as [rs|]; simpl; [|done].
        intros ? [= <-]. rewrite (Hl' rs eq_refl), !fmap_cons.
        by rewrite <- app_assoc.
    + exists (done ++ x :: todo). split; [|done].
      rewrite (bind_Raise _ _ σ e σ) by done.
      by rewrite set_list_id.
Qed.

Lemma res_bind_Ok {A B} (a : A) (f : A → res B) : (Ok a ≫= f) = f a.
Proof. done. Qed.

Lemma res_bind_Raise {A B} (e : exn) (f : A → res B) :
  (Raise e ≫= f) = Raise e.
Proof. done. Qed.

Lemma set_shape_Some σ r o (v : list Z) :
  objects σ !! r = Some o →
  set_shape r v σ
  = Some (Ok (), set_object σ r
                   {| o_cls := o_cls o; o_path := o_path o;
                      o_key := o_key o; o_shape := v;
                      o_slice_list := o_slice_list o;
                      o_maxshape := o_maxshape o |}).
Proof.
  intros H. unfold set_shape.
  rewrite (bind_Some _ _ _ _ _ (read_object_Some _ _ _ H)).
  by apply write_object_Some with o.
Qed.

Lemma set_object_set_object σ r o1 o2 :
  set_object (set_object σ r o1) r o2 = set_object σ r o2.
Proof. unfold set_object. simpl. by rewrite insert_insert_eq. Qed.

Lemma fresh_object_ne σ r o :
  objects σ !! r = Some o → fresh (dom (objects σ)) ≠ r.
Proof.
  intros Hr <-. apply (is_fresh (dom (objects σ))).
  by apply elem_of_dom.
Qed.

Lemma fresh_object_None σ : objects σ !! fresh (dom (objects σ)) = None.
Proof. apply not_elem_of_dom, is_fresh. Qed.

Lemma fresh_list_None σ : lists σ !! fresh (dom (lists σ)) = None.
Proof. apply not_elem_of_dom, is_fresh. Qed.

(** [_parse_slicing] over the store: the outcome is that of
    [_parse_slicing] over values; the copy is a new object with a new
    list, and nothing else is written. *)
Lemma parse_slicing_store σ (self : loc) o (sls : list pyslice) (key : pykey) :
  objects σ !! self = Some o →
  lists σ !! o_slice_list o = Some (KSlice <$> sls) →
  let tmp := fresh (dom (objects σ)) in
  let rl := fresh (dom (lists σ)) in
  ∃ l' o',
    store._parse_slicing self key σ
    = Some ((λ _, tmp) <$> group._parse_slicing (descriptor_of o sls) key,
            set_object (set_list σ rl l') tmp o')
    ∧ ∀ d', group._parse_slicing (descriptor_of o sls) key = Ok d' →
            l' = KSlice <$> slice_list d' ∧ o' = object_of d' rl.
Proof.
  intros Hself Hl tmp rl.
  set (oc := {| o_cls := o_cls o; o_path := o_path o; o_key := o_key o;
                o_shape := o_shape o; o_slice_list := rl;
                o_maxshape := o_maxshape o |}).
  set (σc := set_object (set_list σ rl (KSlice <$> sls)) tmp oc).
  assert (copy self σ = Some (Ok tmp, σc)) as Hcopy.
  { unfold copy.
    rewrite (bind_Some _ _ _ _ _ (read_object_Some _ _ _ Hself)).
    by rewrite (bind_Some _ _ _ _ _ (read_list_Some _ _ _ Hl)). }
  assert (objects σc !! self = Some o) as Hself_c.
  { subst σc. simpl. rewrite lookup_insert_ne; [done|].
    by eapply fresh_object_ne. }
  assert (objects σc !! tmp = Some oc) as Htmp_c.
  { subst σc. simpl. by rewrite lookup_insert_eq. }
  assert (lists σc !! rl = Some (KSlice <$> sls)) as Hl_c.
  { subst σc. simpl. by rewrite lookup_insert_eq. }
  unfold store._parse_slicing, group._parse_slicing.
  rewrite (bind_Some _ _ _ _ _ Hcopy).
  rewrite (bind_Some _ _ _ _ _ (read_object_Some _ _ _ Hself_c)).
  change (shape (descriptor_of o sls)) with (o_shape o).
  destruct (unwrap_key _ key) as [k|e] eqn:Hk; cycle 1.
  { exists (KSlice <$> sls), oc. split; [|done].
    by rewrite (bind_Raise _ _ σc e σc). }
  rewrite res_bind_Ok.
  rewrite (bind_Some _ _ σc k σc) by done.
  rewrite (bind_Some _ _ _ _ _ (read_object_Some _ _ _ Htmp_c)).
  rewrite (bind_Some _ _ _ _ _ (read_list_Some _ _ _ Hl_c)).
  change (slice_list (descriptor_of o sls)) with sls.
  destruct (apply_key (KSlice <$> sls) k) as [merged|e] eqn:Hmerged; cycle 1.
  { exists (KSlice <$> sls), oc. split; [|done].
    by rewrite (bind_Raise _ _ σc e σc). }
  rewrite res_bind_Ok.
  rewrite (bind_Some _ _ σc merged σc) by done.
  rewrite (bind_Some _ _ _ _ _ (write_list_Some _ _ _ _ Hl_c)).
  destruct (resolve_loop_store self tmp o oc merged 0 [] []
              (set_list σc rl merged))
    as (l' & Hloop & Hl'); [done|done|..].
  { simpl. by rewrite lookup_insert_eq. }
  { done. }
  change (o_slice_list oc) with rl in Hloop.
  rewrite set_list_set_list in Hloop.
  simpl. destruct (group.resolve_loop (o_shape o) 0 merged) as [rs|e] eqn:Hrs.
  - simpl in Hloop. rewrite (bind_Some _ _ _ _ _ Hloop).
    exists l', (object_of
                  {| cls := o_cls o; path := o_path o; key := o_key o;
                     shape := fst <$> rs; slice_list := snd <$> rs;
                     maxshape := o_maxshape o |} rl).
    split.
    + rewrite (bind_Some _ _ _ _ _
                 (set_shape_Some (set_list σc rl l') tmp oc _ Htmp_c)).
      simpl. unfold mret, M_ret. do 2 f_equal.
      subst σc. unfold set_object, set_list. simpl.
      by rewrite !insert_insert_eq.
    + intros d' [= <-]. split; [|done]. by rewrite (Hl' rs eq_refl).
  - simpl in Hloop. rewrite (bind_Raise _ _ _ _ _ Hloop).
    exists l', oc. split; [|done].
    simpl. do 2 f_equal. subst σc. unfold set_object, set_list. simpl.
    by rewrite insert_insert_eq.
Qed.

Lemma descriptor_at_inv σ (r : loc) d :
  descriptor_at σ r = Some d →
  ∃ o,
    objects σ !! r = Some o
    ∧ lists σ !! o_slice_list o = Some (KSlice <$> slice_list d)
    ∧ d = descriptor_of o (slice_list d).
Proof.
  unfold descriptor_at. intros H.
  destruct (objects σ !! r) as [o|] eqn:Ho; simpl in H; [|done].
  destruct (lists σ !! o_slice_list o) as [l|] eqn:Hl; simpl in H; [|done].
  destruct (mapM as_slice l) as [sls|] eqn:Hsls; simpl in H; [|done].
  injection H as <-. apply mapM_as_slice_inv in Hsls as ->.
  by exists o.
Qed.

Lemma descriptor_at_object_of σ (r rl : loc) d :
  objects σ !! r = Some (object_of d rl) →
  lists σ !! rl = Some (KSlice <$> slice_list d) →
  descriptor_at σ r = Some d.
Proof.
  intros Ho Hl. unfold descriptor_at. rewrite Ho. simpl. rewrite Hl. simpl.
  rewrite mapM_as_slice. simpl. by destruct d.
Qed.

Lemma extends_new σ (l' : list key_item) o' :
  extends σ (set_object (set_list σ (fresh (dom (lists σ))) l')
               (fresh (dom (objects σ))) o').
Proof.
  split; simpl; apply insert_subseteq;
    [apply fresh_object_None|apply fresh_list_None].
Qed.

(** C9: indexing a descriptor object with a key that is valid for it
    returns a new object, different from the original and from every
    object of the store, which holds the result of the indexing and has a
    slice list of its own; the original holds the descriptor it held
    before in every field, and so does every other object and list of
    the store. *)
Theorem C9_indexing_returns_new_descriptor
    σ (self : loc) d (key : pykey) d' :
  descriptor_at σ self = Some d →
  group.__getitem__ d key = Ok d' →
  ∃ tmp σ',
    store.__getitem__ self key σ = Some (Ok tmp, σ')
    ∧ tmp ≠ self
    ∧ objects σ !! tmp = None
    ∧ descriptor_at σ' tmp = Some d'
    ∧ descriptor_at σ' self = Some d
    ∧ extends σ σ'
    ∧ ∀ o o', objects σ' !! self = Some o → objects σ' !! tmp = Some o' →
              o_slice_list o' ≠ o_slice_list o.
Proof.
  intros (o & Hself & Hl & Hd)%descriptor_at_inv Hget.
  set (tmp := fresh (dom (objects σ))).
  set (rl := fresh (dom (lists σ))).
  destruct (parse_slicing_store σ self o (slice_list d) key Hself Hl)
    as (l' & o' & Hparse & Hres).
  rewrite <- Hd in Hparse, Hres. fold tmp rl in Hparse, Hres.
  assert (tmp ≠ self) as Hne by by eapply fresh_object_ne.
  assert (rl ≠ o_slice_list o) as Hne_l.
  { intros Heq. pose proof (fresh_list_None σ) as Hnone.
    fold rl in Hnone. rewrite Heq in Hnone. congruence. }
  unfold group.__getitem__ in Hget. unfold store.__getitem__.
  rewrite (bind_Some _ _ _ _ _ (read_object_Some _ _ _ Hself)).
  replace (cls d) with (o_cls o) in Hget by by rewrite Hd.
  assert (∀ d1 σ1 (oa : object),
            σ1 = set_object (set_list σ rl (KSlice <$> slice_list d1)) tmp
                   (object_of d1 rl) →
            descriptor_at σ1 tmp = Some d1
            ∧ descriptor_at σ1 self = Some d
            ∧ extends σ σ1
            ∧ ∀ o0 o1, objects σ1 !! self = Some o0 →
                       objects σ1 !! tmp = Some o1 →
                       o_slice_list o1 ≠ o_slice_list o0) as Hfinal.
  { intros d1 σ1 _ ->. split; [|split; [|split]].
    - apply descriptor_at_object_of with rl; simpl;
        by rewrite lookup_insert_eq.
    - unfold descriptor_at. simpl.
      rewrite lookup_insert_ne, Hself by done. simpl.
      rewrite lookup_insert_ne, Hl by done. simpl.
      rewrite mapM_as_slice. simpl. by rewrite Hd.
    - apply extends_new.
    - simpl. intros o0 o1.
      rewrite lookup_insert_ne, Hself by done.
      rewrite lookup_insert_eq. intros [= <-] [= <-]. done. }
  destruct (o_cls o) eqn:Hcls.
  - (* VirtualSource *)
    rewrite Hget in Hparse. destruct (Hres d' Hget) as [-> ->].
    exists tmp, (set_object (set_list σ rl (KSlice <$> slice_list d')) tmp
                   (object_of d' rl)).
    split; [exact Hparse|]. split; [done|].
    split; [apply fresh_object_None|].
    by apply (Hfinal d' _ o).
  - (* VirtualTarget *)
    destruct (group._parse_slicing d key) as [dt|] eqn:Hdt; [|done].
    destruct (Hres dt eq_refl) as [-> ->].
    simpl in Hget. injection Hget as <-.
    rewrite (bind_Some _ _ _ _ _ Hparse).
    erewrite (bind_Some _ _ _ o _); cycle 1.
    { apply read_object_Some. simpl. by rewrite lookup_insert_ne. }
    erewrite (bind_Some _ _ _ () _); cycle 1.
    { eapply set_shape_Some. simpl. by rewrite lookup_insert_eq. }
    rewrite set_object_set_object.
    eexists tmp, _. split; [reflexivity|]. split; [done|].
    split; [apply fresh_object_None|].
    apply (Hfinal {| cls := cls dt; path := path dt; key := group.key dt;
                     shape := shape d; slice_list := slice_list dt;
                     maxshape := maxshape dt |} _ o).
    unfold object_of. simpl. by rewrite Hd.
Qed.

Lemma C9_indexing_returns_new_descriptor_witness :
  let d := DatasetContainer__init__ VirtualTarget "vds.h5" "full"
             [10; 20] None in
  let σ := {| objects := {[ 1%positive := object_of d 1%positive ]};
              lists := {[ 1%positive := KSlice <$> slice_list d ]} |} in
  let key := Packed [KInt 3; KSlice (Slice (Some 2) None (Some 4))] 0 in
  let d' := {| cls := VirtualTarget; path := "vds.h5"; key := "full";
               shape := [10; 20];
               slice_list := [Slice (Some 3) (Some 4) (Some 1);
                              Slice (Some 2) (Some 20) (Some 4)];
               maxshape := [10; 20] |} in
  ∃ tmp σ',
    store.__getitem__ 1%positive key σ = Some (Ok tmp, σ')
    ∧ tmp ≠ 1%positive
    ∧ descriptor_at σ' tmp = Some d'
    ∧ descriptor_at σ' 1%positive = Some d.
Proof.
  intros d σ key d'.
  destruct (C9_indexing_returns_new_descriptor σ 1%positive d key d')
    as (tmp & σ' & Hget & Hne & _ & Htmp & Hself & _).
  - reflexivity.
  - reflexivity.
  - exists tmp, σ'. split; [exact Hget|]. split; [exact Hne|].
    split; [exact Htmp | exact Hself].
Defined.

End copy_on_slice.

Import reshapevdsgenerator.

Section mixed_radix.

Import reference.
Implicit Types self : ReshapeVDSGenerator.

Lemma product_from (x : Z) (l : list Z) :
  foldl (λ product value, product * value) x l = x * product l.
Proof.
  unfold product. revert x. induction l as [|a l IH]; intros x; simpl.
  - lia.
  - rewrite IH, (IH (1 * a)). lia.
Qed.

Lemma product_cons (a : Z) (l : list Z) : product (a :: l) = a * product l.
Proof. unfold product at 1. simpl. rewrite product_from. lia. Qed.

Lemma product_pos (l : list Z) : Forall (λ d, 0 < d) l → 0 < product l.
Proof.
  induction 1 as [|a l Ha _ IH]; [done|]. rewrite product_cons. lia.
Qed.

Lemma radices_of_cons (a : Z) (l : list Z) :
  radices_of (a :: l) = hd 0 (radices_of l) * a :: radices_of l.
Proof. unfold radices_of. by rewrite reverse_cons, foldl_snoc. Qed.

Lemma hd_radices_of (l : list Z) : hd 0 (radices_of l) = product l.
Proof.
  induction l as [|a l IH]; [done|].
  rewrite radices_of_cons, product_cons. simpl. lia.
Qed.

Lemma create_mixed_radix_set_cons self (d0 : Z) (inner : list Z) :
  dimensions self = d0 :: inner →
  create_mixed_radix_set self = radices_of inner.
Proof. intros H. unfold create_mixed_radix_set. by rewrite H. Qed.

(** Repeated subtraction is division with remainder. *)
Lemma subtract_loop_div (fuel : nat) (frame_index radix : Z) (idx : nat)
    (axis_indices : list Z) (v : Z) :
  0 < radix → 0 ≤ frame_index →
  frame_index `div` radix ≤ Z.of_nat fuel →
  axis_indices !! idx = Some v →
  subtract_loop fuel frame_index radix idx axis_indices
  = Return (frame_index `mod` radix,
            <[idx := v + frame_index `div` radix]> axis_indices).
Proof.
  intros Hradix. revert frame_index axis_indices v.
  induction fuel as [|fuel IH]; intros frame_index axis_indices v Hf Hfuel Hv.
  - assert (frame_index `div` radix = 0) as Hq.
    { pose proof (Z.div_pos frame_index radix). lia. }
    apply Z.div_small_iff in Hq as [Hq|Hq]; [|lia|lia].
    simpl. rewrite (proj2 (Z.leb_gt _ _)) by lia.
    rewrite Z.mod_small, Z.div_small by done.
    rewrite Z.add_0_r, list_insert_id by done. done.
  - simpl. destruct (Z.leb_spec radix frame_index) as [Hge|Hlt].
    + unfold list_getitem, list_setitem. rewrite Hv. simpl.
      rewrite decide_True by by eapply lookup_lt_Some. simpl.
      assert (frame_index `div` radix
              = 1 + (frame_index - radix) `div` radix) as Hq.
      { replace frame_index with ((frame_index - radix) + 1 * radix)
          at 1 by lia.
        rewrite Z.div_add by lia. lia. }
      rewrite (IH _ _ (v + 1)); [|lia|lia|].
      * assert ((frame_index - radix) `mod` radix = frame_index `mod` radix)
          as ->.
        { replace frame_index with ((frame_index - radix) + 1 * radix)
            at 2 by lia.
          by rewrite Z.mod_add by lia. }
        rewrite list_insert_insert_eq.
        by replace (v + 1 + (frame_index - radix) `div` radix)
          with (v + frame_index `div` radix) by lia.
      * apply list_lookup_insert_eq. by eapply lookup_lt_Some.
    + rewrite Z.mod_small, Z.div_small by lia.
      rewrite Z.add_0_r, list_insert_id by done. done.
Qed.

(** The loop over the radices of [inner], started at index [idx] on
    coordinates that are still 0 from [idx] on, for a frame index below
    [d * product inner]: the coordinates from [idx] on are the digits of
    the frame index. *)
Lemma radix_loop_digits (fuel : nat) (inner : list Z) :
  ∀ (d frame_index : Z) (idx : nat) (axis_indices : list Z),
    Forall (λ d, 0 < d) inner →
    0 ≤ frame_index < d * product inner →
    frame_index ≤ Z.of_nat fuel →
    length axis_indices = (idx + S (length inner))%nat →
    (∀ j, (idx ≤ j < length axis_indices)%nat → axis_indices !! j = Some 0) →
    ∃ c,
      radix_loop fuel frame_index idx (radices_of inner) axis_indices
      = Return (0, take idx axis_indices ++ c)
      ∧ Forall2 (λ ck dk, 0 ≤ ck < dk) c (d :: inner)
      ∧ coords_to_linear c (radices_of inner) = frame_index.
Proof.
  induction inner as [|a inner IH];
    intros d frame_index idx axis_indices Hpos Hframe Hfuel Hlen Hzero.
  - change (radices_of []) with [1]. simpl.
    rewrite (subtract_loop_div _ _ _ _ _ 0); [|lia|lia|..]; cycle 1.
    { rewrite Z.div_1_r. lia. }
    { apply Hzero. lia. }
    simpl. exists [frame_index].
    rewrite Z.div_1_r, Z.mod_1_r. split; [|split].
    + do 2 f_equal. simpl in Hlen.
      rewrite <- (take_drop idx axis_indices) at 1.
      rewrite insert_app_r_alt by (rewrite length_take; lia).
      rewrite length_take, Nat.min_l, Nat.sub_diag by lia.
      f_equal.
      destruct (drop idx axis_indices) as [|x [|y rest]] eqn:Hdrop;
        apply (f_equal length) in Hdrop;
        rewrite length_drop in Hdrop; simpl in Hdrop; try lia.
      done.
    + constructor; [|constructor]. change (product []) with 1 in Hframe. lia.
    + simpl. lia.
  - rewrite radices_of_cons, hd_radices_of.
    apply Forall_cons in Hpos as [Ha Hpos].
    pose proof (product_pos inner Hpos) as HP.
    rewrite product_cons in Hframe.
    set (R := product inner * a).
    assert (0 < R) as HR by (subst R; lia).
    cbn [radix_loop].
    rewrite (subtract_loop_div _ _ _ _ _ 0); [|lia|lia|..]; cycle 1.
    { pose proof (Z.div_le_upper_bound frame_index R frame_index HR).
      assert (frame_index ≤ R * frame_index) by nia. lia. }
    { apply Hzero. simpl in Hlen. lia. }
    simpl. rewrite Z.add_0_l.
    set (q := frame_index `div` R). set (r := frame_index `mod` R).
    assert (0 ≤ r < R) as Hr by (apply Z.mod_pos_bound; lia).
    assert (frame_index = R * q + r) as Hqr by (apply Z.div_mod; lia).
    assert (0 ≤ q < d) as Hq.
    { split; [apply Z.div_pos; lia|].
      apply Z.div_lt_upper_bound; [lia|]. subst R. nia. }
    destruct (IH a r (S idx) (<[idx := q]> axis_indices))
      as (c & Hloop & Hbounds & Hlin); [done|subst R; lia|lia|..].
    { rewrite length_insert. simpl in Hlen. lia. }
    { intros j Hj. rewrite length_insert in Hj.
      rewrite list_lookup_insert_ne by lia. apply Hzero. lia. }
    rewrite Hloop. exists (q :: c). split; [|split].
    + do 2 f_equal. simpl in Hlen.
      rewrite (take_S_r _ _ q) by (apply list_lookup_insert_eq; lia).
      rewrite take_insert_ge by lia. by rewrite <- app_assoc.
    + constructor; [done|done].
    + simpl. rewrite Hlin. subst R. lia.
Qed.

Lemma invert_loop_no_alternation self (shape : list Z) (alt : list bool)
    (axes : list nat) (axis_indices : list Z) :
  alternate self = Some alt →
  Forall (λ axis, alt !! axis = Some false) axes →
  invert_loop self shape axes axis_indices = Ok axis_indices.
Proof.
  intros Halt Haxes. revert axis_indices.
  induction Haxes as [|axis axes Hax _ IH]; intros axis_indices; [done|].
  simpl. unfold invert_axis at 1. rewrite Halt.
  unfold tuple_getitem. rewrite Hax. simpl. apply IH.
Qed.

(** C6: for dimensions that are all positive, a frame index below their
    product and flags that are all [False], [calculate_axis_indices]
    returns, given fuel for [frame_index] subtractions, coordinates
    that lie within the dimensions and whose weighted sum with the
    radices of [create_mixed_radix_set] is the frame index. *)
Theorem C6_mixed_radix_round_trip self (frame_index : Z) (alt : list bool)
    (shape : list Z) (fuel : nat) :
  Forall (λ d, 0 < d) (dimensions self) →
  0 ≤ frame_index < product (dimensions self) →
  alternate self = Some alt →
  length alt = length (dimensions self) →
  Forall (λ flag, flag = false) alt →
  (Z.to_nat frame_index ≤ fuel)%nat →
  ∃ c,
    calculate_axis_indices fuel self frame_index
      (create_mixed_radix_set self) shape = Return c
    ∧ Forall2 (λ ck dk, 0 ≤ ck < dk) c (dimensions self)
    ∧ coords_to_linear c (create_mixed_radix_set self) = frame_index.
Proof.
  intros Hpos Hframe Halt Hlen Hfalse Hfuel.
  assert (∀ c, lift (invert_loop self shape
                       (seq 1 (length (dimensions self) - 1)) c)
               = Return c) as Hinv.
  { intros c. rewrite (invert_loop_no_alternation _ _ alt); [done|done|].
    apply Forall_forall. intros axis [Hax1 Hax]%elem_of_seq.
    destruct (lookup_lt_is_Some_2 alt axis) as [b Hb]; [lia|].
    rewrite Hb. f_equal.
    by apply (proj1 (Forall_lookup _ _) Hfalse axis). }
  unfold calculate_axis_indices.
  destruct (dimensions self) as [|d0 inner] eqn:Hdims.
  - change (product []) with 1 in Hframe.
    assert (frame_index = 0) as -> by lia.
    exists []. unfold create_mixed_radix_set. rewrite Hdims.
    split; [by destruct fuel|]. split; [constructor|done].
  - rewrite (create_mixed_radix_set_cons self d0 inner Hdims).
    apply Forall_cons in Hpos as [Hd0 Hpos].
    rewrite product_cons in Hframe.
    destruct (radix_loop_digits fuel inner d0 frame_index 0
                ((λ _, 0) <$> d0 :: inner))
      as (c & Hloop & Hbounds & Hlin); [done|done|lia|..].
    { by rewrite length_fmap. }
    { intros j Hj. rewrite length_fmap in Hj.
      rewrite list_lookup_fmap.
      destruct (lookup_lt_is_Some_2 (d0 :: inner) j) as [x ->]; [lia|done]. }
    rewrite Hloop. exists c. split; [|done].
    change (take 0 ?l ++ c) with c.
    exact (Hinv c).
Qed.

End mixed_radix.

Section mixed_radix_examples.

Import reference.

Lemma C6_mixed_radix_round_trip_witness :
  let self := {| files := ["raw.h5"]; source_node := "data";
                 total_frames := 0; periods := [];
                 alternate := Some [false; false; false];
                 dimensions := [5; 3; 10]; source_file := "raw.h5" |} in
  ∃ c,
    calculate_axis_indices 132 self 132 (create_mixed_radix_set self)
      [5; 3; 10; 100; 200] = Return c
    ∧ Forall2 (λ ck dk, 0 ≤ ck < dk) c [5; 3; 10]
    ∧ coords_to_linear c [30; 10; 1] = 132.
Proof.
  intros self.
  apply (C6_mixed_radix_round_trip self 132 [false; false; false]
           [5; 3; 10; 100; 200] 132).
  - repeat constructor.
  - split; [lia | reflexivity].
  - reflexivity.
  - reflexivity.
  - repeat constructor.
  - lia.
Defined.

End mixed_radix_examples.

Section alternation.

Import reference.
Implicit Types self : ReshapeVDSGenerator.

(** One pass of the inversion loop leaves the other coordinates alone
    and inverts this one when its flag is set and the coordinate before
    it is odd. *)
Lemma invert_axis_spec self (shape : list Z) (alt : list bool)
    (axis_indices : list Z) (k : nat) (a : bool) (L r parent : Z) :
  alternate self = Some alt →
  alt !! S k = Some a → shape !! S k = Some L →
  axis_indices !! S k = Some r → axis_indices !! k = Some parent →
  invert_axis self shape axis_indices (S k)
  = Ok (<[S k := if a && negb (parent `mod` 2 =? 0) then L - 1 - r else r]>
          axis_indices).
Proof.
  intros Halt Ha HL Hr Hp. unfold invert_axis.
  rewrite Halt. unfold tuple_getitem, list_getitem, list_setitem.
  rewrite Ha. simpl. rewrite Nat.sub_0_r.
  destruct a; simpl; [|by rewrite list_insert_id].
  rewrite Hp. simpl.
  destruct (parent `mod` 2 =? 0); simpl; [by rewrite list_insert_id|].
  rewrite HL. simpl. rewrite Hr. simpl.
  by rewrite decide_True by by eapply lookup_lt_Some.
Qed.

(** The inversion loop over the axes [m, ..., m + n - 1]: coordinates
    before [m] are kept; each later one is inverted by the rule, with the
    coordinate before it taken as returned. *)
Lemma invert_loop_spec self (shape : list Z) (alt : list bool) (n : nat) :
  ∀ (m : nat) (axis_indices : list Z),
    alternate self = Some alt →
    (1 ≤ m)%nat →
    (m + n ≤ length axis_indices)%nat →
    (m + n ≤ length alt)%nat →
    (m + n ≤ length shape)%nat →
    ∃ c,
      invert_loop self shape (seq m n) axis_indices = Ok c
      ∧ length c = length axis_indices
      ∧ (∀ j, (j < m)%nat ∨ (m + n ≤ j)%nat → c !! j = axis_indices !! j)
      ∧ ∀ (k : nat) (r L parent : Z) (a : bool),
          (m ≤ S k < m + n)%nat →
          axis_indices !! S k = Some r → shape !! S k = Some L →
          alt !! S k = Some a → c !! k = Some parent →
          c !! S k
          = Some (if a && negb (parent `mod` 2 =? 0) then L - 1 - r else r).
Proof.
  induction n as [|n IH]; intros m axis_indices Halt Hm Hlen Hlen_alt Hlen_sh.
  - exists axis_indices. simpl. split; [done|]. split; [done|].
    split; [done|]. intros; lia.
  - destruct m as [|k0]; [lia|].
    destruct (lookup_lt_is_Some_2 alt (S k0)) as [a0 Ha0]; [lia|].
    destruct (lookup_lt_is_Some_2 shape (S k0)) as [L0 HL0]; [lia|].
    destruct (lookup_lt_is_Some_2 axis_indices (S k0)) as [r0 Hr0]; [lia|].
    destruct (lookup_lt_is_Some_2 axis_indices k0) as [p0 Hp0]; [lia|].
    cbn [seq invert_loop].
    rewrite (invert_axis_spec self shape alt axis_indices k0 a0 L0 r0 p0)
      by done.
    set (v := if a0 && negb (p0 `mod` 2 =? 0) then L0 - 1 - r0 else r0).
    destruct (IH (S (S k0)) (<[S k0 := v]> axis_indices))
      as (c & Hloop & Hlenc & Hkeep & Hrule);
      [done|lia|rewrite length_insert; lia|lia|lia|].
    rewrite res_bind_Ok, Hloop. exists c.
    rewrite length_insert in Hlenc.
    split; [done|]. split; [done|]. split.
    + intros j Hj. rewrite Hkeep by lia.
      apply list_lookup_insert_ne. lia.
    + intros k r L parent a Hk Hr HL Ha Hparent.
      destruct (decide (k = k0)) as [->|Hne].
      * rewrite Hkeep in Hparent by lia.
        rewrite list_lookup_insert_ne in Hparent by lia.
        rewrite Hkeep by lia.
        rewrite list_lookup_insert_eq by lia.
        subst v. by simplify_eq.
      * apply Hrule; [lia| |done|done|done].
        rewrite list_lookup_insert_ne by lia. done.
Qed.

End alternation.

Section shape_check.

Import reference.
Implicit Types self : ReshapeVDSGenerator.

Lemma subtract_loop_throw (fuel : nat) (frame_index radix : Z) (idx : nat)
    (axis_indices : list Z) (e : exn) :
  subtract_loop fuel frame_index radix idx axis_indices = Throw e →
  exn_cls e = IndexError.
Proof.
  revert frame_index axis_indices.
  induction fuel as [|fuel IH]; intros frame_index axis_indices; simpl.
  - by destruct (radix <=? frame_index).
  - destruct (radix <=? frame_index); [|done].
    unfold list_getitem. destruct (axis_indices !! idx) as [v|]; simpl;
      [|by intros [= <-]].
    unfold list_setitem. case_decide; simpl; [apply IH|by intros [= <-]].
Qed.

Lemma radix_loop_throw (fuel : nat) (radices : list Z) :
  ∀ (frame_index : Z) (idx : nat) (axis_indices : list Z) (e : exn),
    radix_loop fuel frame_index idx radices axis_indices = Throw e →
    exn_cls e = IndexError.
Proof.
  induction radices as [|radix radices IH];
    intros frame_index idx axis_indices e; simpl; [done|].
  destruct (subtract_loop _ _ _ _ _) as [[f ai]|e'|] eqn:Hsub; simpl.
  - apply IH.
  - intros [= <-]. by eapply subtract_loop_throw.
  - done.
Qed.

Lemma invert_axis_raise self (shape axis_indices : list Z) (axis : nat)
    (e : exn) :
  invert_axis self shape axis_indices axis = Raise e →
  exn_cls e ≠ ValueError.
Proof.
  unfold invert_axis, tuple_getitem, list_getitem, list_setitem.
  repeat (match goal with
          | |- context [match ?o with Some _ => _ | None => _ end] =>
              destruct o
          | |- context [if ?c then _ else _] => destruct c
          end; simpl);
    intros [= <-]; done.
Qed.

Lemma invert_loop_raise self (shape : list Z) (axes : list nat) :
  ∀ (axis_indices : list Z) (e : exn),
    invert_loop self shape axes axis_indices = Raise e →
    exn_cls e ≠ ValueError.
Proof.
  induction axes as [|axis axes IH]; intros axis_indices e; simpl; [done|].
  destruct (invert_axis _ _ _ _) as [ai|e'] eqn:Hax; simpl.
  - apply IH.
  - intros [= <-]. by eapply invert_axis_raise.
Qed.

Lemma calculate_axis_indices_throw (fuel : nat) self (frame_index : Z)
    (radices shape : list Z) (e : exn) :
  calculate_axis_indices fuel self frame_index radices shape = Throw e →
  exn_cls e ≠ ValueError.
Proof.
  unfold calculate_axis_indices.
  destruct (radix_loop _ _ _ _ _) as [[f ai]|e'|] eqn:Hloop; simpl.
  - destruct (invert_loop _ _ _ _) as [c|e'] eqn:Hinv; simpl; [done|].
    intros [= <-]. by eapply invert_loop_raise.
  - intros [= <-]. by rewrite (radix_loop_throw _ _ _ _ _ _ Hloop).
  - done.
Qed.

Lemma create_alternating_virtual_layout_throw (fuel : nat) self
    (shape : list Z) (v_source : h5VirtualSource) (v_layout : VirtualLayout)
    (e : exn) :
  create_alternating_virtual_layout fuel self shape v_source v_layout
  = Throw e →
  exn_cls e ≠ ValueError.
Proof.
  unfold create_alternating_virtual_layout.
  generalize (seqZ 0 (product (dimensions self))). intros idxs.
  revert v_layout. induction idxs as [|idx idxs IH]; intros v_layout; simpl;
    [done|].
  destruct (calculate_axis_indices _ _ _ _ _) as [c|e'|] eqn:Hc; simpl.
  - apply IH.
  - intros [= <-]. by eapply calculate_axis_indices_throw.
  - done.
Qed.

(** What [process_source_datasets] returns when it returns. *)
Lemma process_source_datasets_Ok (grab_metadata : string → SourceMeta)
    self (meta : SourceMeta) self' :
  process_source_datasets grab_metadata self = Ok (meta, self') →
  ∃ file0 first,
    files self !! 0%nat = Some file0
    ∧ frames (grab_metadata file0) !! 0%nat = Some first
    ∧ frames meta = frames (grab_metadata file0)
    ∧ dimensions self' = dimensions self
    ∧ alternate self' = alternate self
    ∧ source_file self' = source_file self
    ∧ source_node self' = source_node self
    ∧ (length (files self) = 1%nat → total_frames self' = first).
Proof.
  unfold process_source_datasets, tuple_getitem.
  destruct (files self) as [|file0 rest] eqn:Hfiles; simpl; [done|].
  destruct (frames (grab_metadata file0)) as [|first fs] eqn:Hframes;
    simpl; [done|].
  destruct (foldlM _ _ _) as [total|] eqn:Htotal; simpl; [|done].
  intros [= <- <-]. exists file0, first. simpl.
  split; [done|]. rewrite Hframes.
  repeat (split; [done|]).
  intros Hone. destruct rest; [|done].
  simpl in Htotal. unfold mret, res_ret in Htotal. congruence.
Qed.

(** C1, as the code has it: after [process_source_datasets],
    [create_virtual_layout] raises the shape mismatch exactly when the
    frame count of the first file differs from the product of the
    dimensions.  The generator has one raw file, [files[0]], and for one
    file this count is the total the generator has summed.  Without
    alternation, when the counts agree, the layout is one mapping of the
    whole of that file. *)
Theorem C1_shape_mismatch_on_first_file
    (grab_metadata : string → SourceMeta) self (meta : SourceMeta) self'
    (fuel : nat) :
  process_source_datasets grab_metadata self = Ok (meta, self') →
  ∃ file0 first,
    files self !! 0%nat = Some file0
    ∧ frames (grab_metadata file0) !! 0%nat = Some first
    ∧ (create_virtual_layout fuel self' meta = Throw shape_mismatch
       ↔ first ≠ product (dimensions self))
    ∧ (length (files self) = 1%nat → total_frames self' = first)
    ∧ (alternate self = None → first = product (dimensions self) →
       create_virtual_layout fuel self' meta
       = Return
           {| vl_shape := dimensions self ++ [height meta; width meta];
              vl_dtype := dtype meta;
              vl_maps :=
                [([KEllipsis],
                  {| vs_path := source_file self;
                     vs_name := source_node self;
                     vs_shape := frames meta ++ [height meta; width meta];
                     vs_dtype := dtype meta;
                     vs_sel := None |})] |}).
Proof.
  intros (file0 & first & Hfile & Hfirst & Hmeta & Hdims & Halt & Hsf & Hsn
          & Hone)%process_source_datasets_Ok.
  exists file0, first. split; [done|]. split; [done|].
  split; [|split; [done|]].
  - unfold create_virtual_layout, tuple_getitem.
    rewrite Hmeta, Hfirst, Hdims. simpl.
    destruct (Z.eqb_spec first (product (dimensions self))) as [Heq|Hne];
      simpl; [|done].
    split; [|done]. intros Hthrow. exfalso.
    destruct (alternate self') as [alt|]; [|done].
    by apply create_alternating_virtual_layout_throw in Hthrow.
  - intros Hnone Heq. unfold create_virtual_layout, tuple_getitem.
    rewrite Hmeta, Hfirst, Hdims, Halt, Hnone, Hsf, Hsn. simpl.
    by rewrite (proj2 (Z.eqb_eq _ _) Heq).
Qed.

Lemma C1_shape_mismatch_on_first_file_witness :
  let grab_metadata := λ _ : string,
    {| frames := [10]; height := 100; width := 200; dtype := "uint16" |} in
  let self := {| files := ["raw.h5"]; source_node := "data";
                 total_frames := 0; periods := []; alternate := None;
                 dimensions := [10]; source_file := "raw.h5" |} in
  ∃ meta self',
    process_source_datasets grab_metadata self = Ok (meta, self')
    ∧ total_frames self' = 10
    ∧ (vl_maps <$> create_virtual_layout 0 self' meta)
      = Return [([KEllipsis],
                 {| vs_path := "raw.h5"; vs_name := "data";
                    vs_shape := [10; 100; 200]; vs_dtype := "uint16";
                    vs_sel := None |})].
Proof.
  intros grab_metadata self.
  eexists _, _. split; [reflexivity|].
  destruct (C1_shape_mismatch_on_first_file grab_metadata self _ _ 0%nat
              eq_refl)
    as (file0 & first & Hfile & Hfirst & _ & Htotal & Hbulk).
  injection Hfile as <-. injection Hfirst as <-.
  split; [exact (Htotal eq_refl)|].
  rewrite (Hbulk eq_refl eq_refl). reflexivity.
Defined.

(** C1 does not hold as stated: for three files with 2, 3 and 5 frames
    and dimensions (10,), the generator sums 10 frames, which is the
    product of the dimensions, and [create_virtual_layout] still raises
    the shape mismatch, since it compares the 2 frames of the first
    file. *)
Lemma C1_counterexample :
  let grab_metadata := λ file : string,
    {| frames := if decide (file = "a.h5") then [2]
                 else if decide (file = "b.h5") then [3] else [5];
       height := 100; width := 200; dtype := "uint16" |} in
  let self := {| files := ["a.h5"; "b.h5"; "c.h5"]; source_node := "data";
                 total_frames := 0; periods := []; alternate := None;
                 dimensions := [10]; source_file := "a.h5" |} in
  ∃ meta self',
    process_source_datasets grab_metadata self = Ok (meta, self')
    ∧ total_frames self' = product (dimensions self')
    ∧ create_virtual_layout 0 self' meta = Throw shape_mismatch.
Proof.
  intros grab_metadata self. eexists _, _.
  split; [reflexivity|]. split; reflexivity.
Qed.

End shape_check.

(** * Further properties of group.py *)

Section indexing_invariants.

Import reference.
Implicit Types d : DatasetContainer.

Lemma axis_length_nonneg (a b s : Z) : s ≠ 0 → 0 ≤ axis_length a b s.
Proof.
  intros Hs. unfold axis_length.
  destruct (Z.ltb_spec 0 s).
  - destruct (Z.ltb_spec a b); [|done].
    pose proof (ceil_div_pos (b - a) s). lia.
  - destruct (Z.ltb_spec b a); [|done].
    pose proof (ceil_div_pos (a - b) (- s)). lia.
Qed.

(** What the loop body returns is a resolved slice with a non-zero step. *)
Lemma resolve_slice_output (self_shape : list Z) (ix : nat) sl r :
  resolve_slice self_shape ix sl = Ok r →
  ∃ a b s, r.2 = Slice (Some a) (Some b) (Some s) ∧ s ≠ 0.
Proof.
  unfold resolve_slice.
  destruct (Z.ltb_spec 0 (default 1 (step sl))) as [Hpos|Hle].
  - destruct (or_default (start sl) _) as [a0|]; simpl; [|done].
    destruct (or_default (stop sl) _) as [b0|]; simpl; [|done].
    destruct (wrap_negative _ _ a0) as [a|]; simpl; [|done].
    destruct (wrap_negative _ _ b0) as [b|]; simpl; [|done].
    intros [= <-]. simpl. eexists _, _, _. split; [done|lia].
  - destruct (Z.ltb_spec (default 1 (step sl)) 0) as [Hneg|Hge]; [|done].
    destruct (or_default (stop sl) _) as [b0|]; simpl; [|done].
    destruct (or_default (start sl) _) as [a0|]; simpl; [|done].
    destruct (wrap_negative _ _ a0) as [a|]; simpl; [|done].
    destruct (wrap_negative _ _ b0) as [b|]; simpl; [|done].
    intros [= <-]. simpl. eexists _, _, _. split; [done|lia].
Qed.

Lemma resolve_loop_output (self_shape : list Z) (ix : nat)
    (l : list key_item) rs :
  resolve_loop self_shape ix l = Ok rs →
  Forall (λ sl, ∃ a b s, sl = Slice (Some a) (Some b) (Some s) ∧ s ≠ 0)
    (snd <$> rs).
Proof.
  revert ix rs. induction l as [|x l IH]; intros ix rs; simpl.
  - intros [= <-]. constructor.
  - destruct (resolve_entry _ _ _) as [r|] eqn:Hr; simpl; [|done].
    destruct (resolve_loop _ _ _) as [rs'|] eqn:Hrs; simpl; [|done].
    intros [= <-]. rewrite fmap_cons. constructor; [|by eapply IH].
    destruct x; simpl in Hr; try done.
    by eapply resolve_slice_output.
Qed.

Lemma resolved_length_nonneg (sls : list pyslice) :
  Forall (λ sl, ∃ a b s, sl = Slice (Some a) (Some b) (Some s) ∧ s ≠ 0) sls →
  Forall (λ n, 0 ≤ n) (resolved_length <$> sls).
Proof.
  intros H. apply Forall_fmap. eapply Forall_impl; [exact H|].
  intros sl (a & b & s & -> & Hs). simpl. by apply axis_length_nonneg.
Qed.

Lemma parse_slicing_output d key d' :
  _parse_slicing d key = Ok d' →
  cls d' = cls d ∧ path d' = path d ∧ group.key d' = group.key d
  ∧ maxshape d' = maxshape d
  ∧ Forall (λ sl, ∃ a b s, sl = Slice (Some a) (Some b) (Some s) ∧ s ≠ 0)
      (slice_list d')
  ∧ shape d' = resolved_length <$> slice_list d'.
Proof.
  unfold _parse_slicing.
  destruct (unwrap_key _ _) as [k|]; simpl; [|done].
  destruct (apply_key _ _) as [merged|]; simpl; [|done].
  destruct (resolve_loop _ _ _) as [rs|] eqn:Hrs; simpl; [|done].
  intros [= <-]. simpl. repeat (split; [done|]).
  split; [by eapply resolve_loop_output|by eapply resolve_loop_consistent].
Qed.

Lemma getitem_slices_resolved d (key : pykey) d' :
  __getitem__ d key = Ok d' →
  Forall (λ sl, ∃ a b s, sl = Slice (Some a) (Some b) (Some s) ∧ s ≠ 0)
    (slice_list d').
Proof.
  unfold __getitem__. destruct (cls d).
  - by intros (_ & _ & _ & _ & Hres & _)%parse_slicing_output.
  - destruct (_parse_slicing d key) as [tmp|] eqn:Htmp; [|done].
    apply parse_slicing_output in Htmp as (_ & _ & _ & _ & Hres & _).
    simpl. by intros [= <-].
Qed.

(** Whenever indexing succeeds, the result keeps the class, path, key and
    maximal shape of the descriptor; every slice of its slice list is
    resolved, with a non-zero step; a target keeps its shape, and a source
    gets the shape its slices select, one entry per slice and none of them
    negative. *)
Theorem getitem_result_is_resolved d (key : pykey) d' :
  __getitem__ d key = Ok d' →
  cls d' = cls d ∧ path d' = path d ∧ group.key d' = group.key d
  ∧ maxshape d' = maxshape d
  ∧ Forall (λ sl, ∃ a b s, sl = Slice (Some a) (Some b) (Some s) ∧ s ≠ 0)
      (slice_list d')
  ∧ match cls d with
    | VirtualTarget => shape d' = shape d
    | VirtualSource =>
        shape d' = resolved_length <$> slice_list d'
        ∧ Forall (λ n, 0 ≤ n) (shape d')
    end.
Proof.
  unfold __getitem__. destruct (cls d) eqn:Hcls.
  - intros (? & ? & ? & ? & Hres & Hshape)%parse_slicing_output.
    rewrite Hcls in *. repeat (split; [done|]).
    rewrite Hshape. by apply resolved_length_nonneg.
  - destruct (_parse_slicing d key) as [tmp|] eqn:Htmp; [|done].
    apply parse_slicing_output in Htmp as (? & ? & ? & ? & Hres & _).
    simpl. intros [= <-]. simpl. rewrite Hcls in *. done.
Qed.

Lemma getitem_result_is_resolved_witness :
  let d := DatasetContainer__init__ VirtualSource "raw.h5" "data"
             [10; 20] None in
  ∃ d',
    __getitem__ d (Packed [KSlice (Slice None (Some (-3)) (Some 2));
                           KSlice (Slice (Some 5) (Some 2) None)] 0) = Ok d'
    ∧ slice_list d' = [Slice (Some 0) (Some 7) (Some 2);
                       Slice (Some 5) (Some 2) (Some 1)]
    ∧ shape d' = [4; 0]
    ∧ Forall (λ n, 0 ≤ n) (shape d').
Proof.
  intros d.
  set (d' := {| cls := VirtualSource; path := "raw.h5"; key := "data";
                shape := [4; 0];
                slice_list := [Slice (Some 0) (Some 7) (Some 2);
                               Slice (Some 5) (Some 2) (Some 1)];
                maxshape := [10; 20] |}).
  exists d'. split; [reflexivity|].
  split; [reflexivity|]. split; [reflexivity|].
  pose proof (getitem_result_is_resolved d
                (Packed [KSlice (Slice None (Some (-3)) (Some 2));
                         KSlice (Slice (Some 5) (Some 2) None)] 0)
                d' eq_refl) as (_ & _ & _ & _ & _ & H).
  exact (proj2 H).
Defined.

(** An integer index keeps its axis.  On an axis of positive length [L] the
    integer [i] becomes the one-element slice that starts at [i], or at
    [L + i] when [i] is negative, and the axis gets length 1, with no check
    of [i] against [L]; the exception is [i = -1], whose slice
    [(L - 1, 0, 1)] selects nothing. *)
Theorem integer_index_keeps_axis (self_shape : list Z) (ix : nat) (L i : Z) :
  self_shape !! ix = Some L →
  0 < L →
  resolve_entry self_shape ix (int_to_slice (KInt i))
  = if decide (i = -1)
    then Ok (0, Slice (Some (L - 1)) (Some 0) (Some 1))
    else Ok (1, Slice (Some (normalise L i)) (Some (normalise L i + 1))
                  (Some 1)).
Proof.
  intros HL Hpos. unfold normalise.
  cbn [int_to_slice resolve_entry]. unfold resolve_slice.
  cbn [step start stop default or_default]. simpl (0 <? 1).
  cbv iota. rewrite !res_bind_Ok.
  unfold wrap_negative, tuple_getitem. rewrite HL.
  case_decide as Hi.
  - subst i. simpl.
    rewrite (proj2 (Z.ltb_ge (L + -1) (-1 + 1))) by lia.
    change (-1 + 1) with 0. unfold mret, res_ret.
    by replace (L + -1) with (L - 1) by lia.
  - destruct (Z.ltb_spec i 0) as [Hneg|Hnn]; simpl.
    + rewrite (proj2 (Z.ltb_lt (i + 1) 0)) by lia. simpl.
      rewrite (proj2 (Z.ltb_lt (L + i) (L + (i + 1)))) by lia.
      replace (L + (i + 1) - (L + i) + 1 - 1) with 1 by lia.
      by replace (L + (i + 1)) with (L + i + 1) by lia.
    + rewrite (proj2 (Z.ltb_ge (i + 1) 0)) by lia. simpl.
      rewrite (proj2 (Z.ltb_lt i (i + 1))) by lia.
      by replace (i + 1 - i + 1 - 1) with 1 by lia.
Qed.

Lemma integer_index_keeps_axis_witness :
  resolve_entry [5] 0 (int_to_slice (KInt 7))
  = Ok (1, Slice (Some 7) (Some 8) (Some 1))
  ∧ resolve_entry [5] 0 (int_to_slice (KInt (-2)))
    = Ok (1, Slice (Some 3) (Some 4) (Some 1))
  ∧ resolve_entry [5] 0 (int_to_slice (KInt (-1)))
    = Ok (0, Slice (Some 4) (Some 0) (Some 1)).
Proof.
  split; [|split].
  - exact (integer_index_keeps_axis [5] 0 5 7 eq_refl ltac:(lia)).
  - exact (integer_index_keeps_axis [5] 0 5 (-2) eq_refl ltac:(lia)).
  - exact (integer_index_keeps_axis [5] 0 5 (-1) eq_refl ltac:(lia)).
Defined.

End indexing_invariants.

Section keys_without_ellipsis.

Import reference.
Implicit Types d : DatasetContainer.

Lemma parse_slicing_no_ellipsis d (key : pykey) (items : list key_item) d' :
  unwrap_key (Z.of_nat (length (shape d))) key = Ok (int_to_slice <$> items) →
  Forall (λ ix, is_ellipsis ix = false) items →
  _parse_slicing d key = Ok d' →
  ∃ rs,
    resolve_loop (shape d) 0
      ((int_to_slice <$> items)
       ++ drop (length items) (KSlice <$> slice_list d)) = Ok rs
    ∧ shape d' = fst <$> rs ∧ slice_list d' = snd <$> rs.
Proof.
  intros Hkey Hitems. unfold _parse_slicing. rewrite Hkey. simpl.
  rewrite apply_key_no_ellipsis by by apply no_ellipsis_int_to_slice.
  simpl. rewrite length_fmap.
  destruct (resolve_loop _ _ _) as [rs|]; simpl; [|done].
  intros [= <-]. by exists rs.
Qed.

(** A key without ellipsis, passed entry by entry, with at most as many
    entries as the descriptor has axes: when parsing succeeds the number
    of axes is kept, each entry of the key is resolved on the axis of its
    position, and every axis after the key whose slice is resolved with
    non-negative bounds keeps that slice. *)
Theorem key_without_ellipsis_fills_leading_axes d (items : list key_item) d' :
  Forall (λ ix, is_ellipsis ix = false) items →
  items ≠ [] →
  (length items ≤ length (shape d))%nat →
  length (slice_list d) = length (shape d) →
  _parse_slicing d (Args items) = Ok d' →
  length (slice_list d') = length (shape d)
  ∧ length (shape d') = length (shape d)
  ∧ (∀ (k : nat) (x : key_item),
       items !! k = Some x →
       ∃ n sl,
         resolve_entry (shape d) k (int_to_slice x) = Ok (n, sl)
         ∧ shape d' !! k = Some n ∧ slice_list d' !! k = Some sl)
  ∧ (∀ (k : nat) (sl : pyslice),
       (length items ≤ k)%nat →
       slice_list d !! k = Some sl → resolved_nonneg sl →
       shape d' !! k = Some (resolved_length sl)
       ∧ slice_list d' !! k = Some sl).
Proof.
  intros Hitems Hne Hlen Hsl Hparse.
  destruct (parse_slicing_no_ellipsis d (Args items) items d')
    as (rs & Hrs & Hshape & Hslices); [by apply unwrap_key_args|done|done|].
  pose proof (resolve_loop_length _ _ _ _ Hrs) as Hlen_rs.
  rewrite length_app, length_drop, !length_fmap in Hlen_rs.
  rewrite Hshape, Hslices, !length_fmap.
  split; [lia|]. split; [lia|]. split.
  - intros k x Hx.
    destruct (resolve_loop_lookup _ _ 0 rs k (int_to_slice x) Hrs)
      as ([n sl] & Hk & Hr).
    { rewrite lookup_app_l by (rewrite length_fmap; by eapply lookup_lt_Some).
      by rewrite list_lookup_fmap, Hx. }
    exists n, sl. rewrite !list_lookup_fmap, Hk. done.
  - intros k sl Hk Hsl_k (a & b & s & -> & Ha & Hb & Hs).
    destruct (resolve_loop_lookup _ _ 0 rs k
                (KSlice (Slice (Some a) (Some b) (Some s))) Hrs)
      as ([n sl'] & Hk' & Hr).
    { rewrite lookup_app_r by (rewrite length_fmap; lia).
      rewrite length_fmap, lookup_drop, list_lookup_fmap.
      replace (length items + (k - length items))%nat with k by lia.
      by rewrite Hsl_k. }
    simpl in Hr. rewrite resolve_slice_resolved in Hr by done.
    injection Hr as <- <-. rewrite !list_lookup_fmap, Hk'. done.
Qed.

Lemma key_without_ellipsis_fills_leading_axes_witness :
  let d := {| cls := VirtualSource; path := "raw.h5"; key := "data";
              shape := [3; 20];
              slice_list := [Slice (Some 2) (Some 9) (Some 3);
                             Slice (Some 0) (Some 20) (Some 1)];
              maxshape := [10; 20] |} in
  ∃ d',
    _parse_slicing d (Args [KInt 1]) = Ok d'
    ∧ slice_list d' = [Slice (Some 1) (Some 2) (Some 1);
                       Slice (Some 0) (Some 20) (Some 1)]
    ∧ length (shape d') = 2%nat.
Proof.
  intros d.
  set (d' := {| cls := VirtualSource; path := "raw.h5"; key := "data";
                shape := [1; 20];
                slice_list := [Slice (Some 1) (Some 2) (Some 1);
                               Slice (Some 0) (Some 20) (Some 1)];
                maxshape := [10; 20] |}).
  exists d'. split; [reflexivity|]. split; [reflexivity|].
  refine (proj1 (proj2 (key_without_ellipsis_fills_leading_axes d [KInt 1] d'
                          _ _ _ eq_refl eq_refl))).
  - repeat constructor.
  - done.
  - simpl. lia.
Defined.

(** A key that reaches [_parse_slicing] as one tuple, as for [d[a, b, c]]:
    the rank check counts the arguments, not the entries of the tuple, so it
    fails exactly when the descriptor has fewer axes than there are
    arguments; and a tuple without ellipsis that is parsed gives a slice
    list as long as the longer of the tuple and the old slice list. *)
Theorem packed_key_is_not_rank_checked d (items : list key_item) (rest : nat) :
  (_parse_slicing d (Packed items rest)
   = Raise (Exn IndexError "Index rank is greater than dataset rank")
   ↔ (length (shape d) < 1 + rest)%nat)
  ∧ ∀ d',
      Forall (λ ix, is_ellipsis ix = false) items →
      _parse_slicing d (Packed items rest) = Ok d' →
      length (slice_list d')
      = (length items `max` length (slice_list d))%nat.
Proof.
  split.
  - unfold _parse_slicing, unwrap_key. simpl.
    destruct (Z.ltb_spec (Z.of_nat (length (shape d)) - (1 + Z.of_nat rest)) 0)
      as [Hlt|Hge]; simpl.
    + split; [lia|done].
    + split; [|lia]. intros Hraise. exfalso.
      destruct (apply_key _ _) as [merged|e] eqn:Hmerged; simpl in Hraise.
      * destruct (resolve_loop _ _ _) as [rs|e] eqn:Hrs; simpl in Hraise;
          [done|].
        injection Hraise as ->.
        revert Hrs. generalize 0%nat. clear.
        induction merged as [|x l IH]; intros ix; simpl; [done|].
        destruct (resolve_entry (shape d) ix x) as [r|e] eqn:Hr; simpl.
        -- destruct (resolve_loop _ _ _) eqn:Hl; simpl; [done|].
           intros [= ->]. by eapply IH.
        -- intros [= ->]. destruct x as [|sl|]; simpl in Hr; try done.
           revert Hr. unfold resolve_slice, or_default, wrap_negative,
             tuple_getitem.
           repeat (match goal with
                   | |- context [if ?c then _ else _] => destruct c
                   | |- context [match ?o with Some _ => _ | None => _ end] =>
                       destruct o
                   end; simpl); done.
      * injection Hraise as ->. revert Hmerged. unfold apply_key.
        repeat (match goal with
                | |- context [if ?c then _ else _] => destruct c
                end; simpl); try done.
        unfold index_true.
        repeat (match goal with
                | |- context [match ?o with Some _ => _ | None => _ end] =>
                    destruct o as [[??]|]
                | |- context [if ?c then _ else _] => destruct c
                end; simpl); done.
  - intros d' Hitems Hparse.
    destruct (parse_slicing_no_ellipsis d (Packed items rest) items d')
      as (rs & Hrs & _ & ->); [|done|done|].
    { unfold _parse_slicing, unwrap_key in *. simpl in *.
      by destruct (_ <? 0). }
    apply resolve_loop_length in Hrs.
    rewrite length_app, length_drop, !length_fmap in Hrs.
    rewrite length_fmap. lia.
Qed.

End keys_without_ellipsis.

Section tuple_key_examples.

Lemma packed_key_is_not_rank_checked_witness :
  let d := DatasetContainer__init__ VirtualSource "raw.h5" "data"
             [10; 20] None in
  ∃ d',
    _parse_slicing d (Packed [KInt 0; KInt 1; KInt 2] 0) = Ok d'
    ∧ length (slice_list d') = 3%nat.
Proof.
  intros d.
  set (d' := {| cls := VirtualSource; path := "raw.h5"; key := "data";
                shape := [1; 1; 1];
                slice_list := [Slice (Some 0) (Some 1) (Some 1);
                               Slice (Some 1) (Some 2) (Some 1);
                               Slice (Some 2) (Some 3) (Some 1)];
                maxshape := [10; 20] |}).
  exists d'. split; [reflexivity|].
  apply (proj2 (packed_key_is_not_rank_checked d [KInt 0; KInt 1; KInt 2] 0)
           d').
  - repeat constructor.
  - reflexivity.
Defined.

End tuple_key_examples.

Section exception_safety.

Import reference store.
Implicit Types σ : store.store.

Lemma descriptor_at_extends σ σ' (r : loc) d :
  extends σ σ' → descriptor_at σ r = Some d → descriptor_at σ' r = Some d.
Proof.
  intros [Hobj Hlist] (o & Ho & Hl & Hd)%descriptor_at_inv.
  unfold descriptor_at.
  rewrite (lookup_weaken _ _ _ _ Ho Hobj). simpl.
  rewrite (lookup_weaken _ _ _ _ Hl Hlist). simpl.
  rewrite mapM_as_slice. simpl. by rewrite Hd.
Qed.

(** Indexing a descriptor object with any key, valid or not, ends with the
    outcome that indexing the descriptor value has, be it a result or the
    same exception, and leaves every object and list of the store as it
    was: a key that is rejected has changed nothing. *)
Theorem getitem_never_writes_to_the_store σ (self : loc) d (key : pykey) :
  descriptor_at σ self = Some d →
  ∃ r σ',
    store.__getitem__ self key σ = Some (r, σ')
    ∧ (λ _, ()) <$> r = (λ _, ()) <$> group.__getitem__ d key
    ∧ extends σ σ'
    ∧ descriptor_at σ' self = Some d.
Proof.
  intros Hat.
  pose proof Hat as (o & Hself & Hl & Hd)%descriptor_at_inv.
  destruct (parse_slicing_store σ self o (slice_list d) key Hself Hl)
    as (l' & o' & Hparse & Hres).
  rewrite <- Hd in Hparse, Hres.
  unfold store.__getitem__, group.__getitem__.
  rewrite (bind_Some _ _ _ _ _ (read_object_Some _ _ _ Hself)).
  replace (cls d) with (o_cls o) by by rewrite Hd.
  destruct (o_cls o).
  - eexists _, _. split; [exact Hparse|].
    split; [by destruct (group._parse_slicing d key)|].
    split; [apply extends_new|].
    eapply descriptor_at_extends; [apply extends_new|done].
  - destruct (group._parse_slicing d key) as [dt|e] eqn:Hdt.
    + destruct (Hres dt eq_refl) as [-> ->].
      rewrite (bind_Some _ _ _ _ _ Hparse).
      erewrite (bind_Some _ _ _ o _); cycle 1.
      { apply read_object_Some. simpl. rewrite lookup_insert_ne; [done|].
        by eapply fresh_object_ne. }
      erewrite (bind_Some _ _ _ () _); cycle 1.
      { eapply set_shape_Some. simpl. by rewrite lookup_insert_eq. }
      rewrite set_object_set_object.
      eexists _, _. split; [reflexivity|]. split; [done|].
      split; [apply extends_new|].
      eapply descriptor_at_extends; [apply extends_new|done].
    + rewrite (bind_Raise _ _ _ _ _ Hparse).
      eexists _, _. split; [reflexivity|]. split; [done|].
      split; [apply extends_new|].
      eapply descriptor_at_extends; [apply extends_new|done].
Qed.

Lemma getitem_never_writes_to_the_store_witness :
  let d := DatasetContainer__init__ VirtualTarget "vds.h5" "full"
             [10; 20] None in
  let σ := {| objects := {[ 1%positive := object_of d 1%positive ]};
              lists := {[ 1%positive := KSlice <$> slice_list d ]} |} in
  ∃ r σ',
    store.__getitem__ 1%positive (Args [KSlice (Slice None None (Some 0))]) σ
    = Some (r, σ')
    ∧ (λ _, ()) <$> r
      = Raise (Exn IndexError "A step of 0 is not valid")
    ∧ descriptor_at σ' 1%positive = Some d.
Proof.
  intros d σ.
  destruct (getitem_never_writes_to_the_store σ 1%positive d
              (Args [KSlice (Slice None None (Some 0))]) eq_refl)
    as (r & σ' & Hget & Hr & _ & Hself).
  exists r, σ'. split; [exact Hget|]. split; [exact Hr | exact Hself].
Defined.

End exception_safety.

Section virtual_map_edges.

Import reference.
Implicit Types vs vt src tgt : DatasetContainer.

Lemma tuple_index_any (t : list Z) (x : Z) :
  any ((λ ix, ix =? x) <$> t) = true →
  ∃ u, tuple_index t x = Ok u ∧ t !! u = Some x.
Proof.
  intros Hany. unfold tuple_index.
  destruct (list_find _ _) as [[i y]|] eqn:Hfind.
  - apply list_find_Some in Hfind as (Hi & -> & _). eauto.
  - exfalso. apply list_find_None in Hfind.
    induction t as [|y t IH]; [done|].
    apply Forall_cons in Hfind as [Hy Ht].
    rewrite fmap_cons in Hany. unfold any in *. simpl in Hany.
    rewrite (proj2 (Z.eqb_neq _ _) Hy) in Hany. simpl in Hany. by apply IH.
Qed.

(** A source of rank 1 with an unbounded axis cannot be mapped into a target
    of higher rank: the block shape is left unset for a source of rank 1,
    and the unbounded axis then asks for an entry of it.  The constructor
    raises whatever h5py does, and it raises this [TypeError] unless
    [create_simple] has refused the source shape before. *)
Theorem rank_one_unbounded_source_is_rejected (h5 : h5py) vs vt
    (dt : string) src tgt :
  __getitem__ vs (Args [KEllipsis]) = Ok src →
  __getitem__ vt (Args [KEllipsis]) = Ok tgt →
  length (shape src) = 1%nat →
  (1 < length (shape tgt))%nat →
  UNLIMITED ∈ maxshape src →
  (length (maxshape src) ≤ length (slice_list src))%nat →
  ∃ e,
    VirtualMap__init__ h5 vs vt dt = Raise e
    ∧ (create_simple_error h5 (shape src) (maxshape src) = None →
       e = Exn TypeError "'NoneType' object is not iterable").
Proof.
  intros Hsrc Htgt Hone Hrank Hunb Hlen. unfold VirtualMap__init__.
  rewrite Hsrc, Htgt. simpl. unfold create_simple.
  destruct (create_simple_error _ _ _) as [e0|]; simpl.
  { exists e0. by split. }
  eexists. split; [|done]. unfold source_selection.
  pose proof (any_unlimited_true _ Hunb) as Hany. rewrite Hany.
  destruct (tuple_index_any _ _ Hany) as (u & -> & Hu). simpl.
  unfold list_setitem. rewrite decide_True; cycle 1.
  { rewrite length_replicate, length_fmap.
    apply lookup_lt_Some in Hu. lia. }
  simpl. unfold pad_block_shape.
  rewrite (proj2 (Z.ltb_lt _ _)) by lia.
  by rewrite (proj2 (Nat.eqb_eq _ _) Hone).
Qed.

Lemma rank_one_unbounded_source_is_rejected_witness :
  VirtualMap__init__ argument_lengths_checked
    (DatasetContainer__init__ VirtualSource "raw.h5" "data" [100]
       (Some [None]))
    (DatasetContainer__init__ VirtualTarget "vds.h5" "full" [10; 10] None)
    "uint16"
  = Raise (Exn TypeError "'NoneType' object is not iterable").
Proof.
  destruct (rank_one_unbounded_source_is_rejected argument_lengths_checked
              (DatasetContainer__init__ VirtualSource "raw.h5" "data" [100]
                 (Some [None]))
              (DatasetContainer__init__ VirtualTarget "vds.h5" "full"
                 [10; 10] None)
              "uint16" _ _ eq_refl eq_refl) as (e & He & Hcls).
  - reflexivity.
  - simpl. lia.
  - by left.
  - simpl. lia.
  - rewrite He. f_equal. by apply Hcls.
Defined.

(** Descriptors of different ranks, the lower of which is not 1: the block
    shape assigned has the length of the target's rank; for a target of
    lower rank it is the target shape itself, without leading ones, since
    [(1,) * rank_def] is empty for a negative [rank_def].  It is passed as
    the block of the selection on the source dataspace, so with an h5py
    that checks the block against the rank of the dataspace no map is
    built: the constructor raises, and it raises a [ValueError] when the
    source has no unbounded axis and [create_simple] has accepted its
    shape. *)
Theorem unequal_ranks_are_rejected (h5 : h5py) vs vt (dt : string) src tgt :
  __getitem__ vs (Args [KEllipsis]) = Ok src →
  __getitem__ vt (Args [KEllipsis]) = Ok tgt →
  checks_block_rank h5 →
  length (shape src) ≠ length (shape tgt) →
  (length (shape src) `min` length (shape tgt))%nat ≠ 1%nat →
  (∃ bs, pad_block_shape src tgt = Some bs
         ∧ length bs = length (shape tgt)
         ∧ ((length (shape tgt) < length (shape src))%nat →
            bs = shape tgt))
  ∧ ∃ e,
      VirtualMap__init__ h5 vs vt dt = Raise e
      ∧ (create_simple_error h5 (shape src) (maxshape src) = None →
         UNLIMITED ∉ maxshape src → exn_cls e = ValueError).
Proof.
  intros Hsrc Htgt Hcheck Hne Hlow.
  assert (∃ bs, pad_block_shape src tgt = Some bs
                ∧ length bs = length (shape tgt)
                ∧ ((length (shape tgt) < length (shape src))%nat →
                   bs = shape tgt)) as (bs & Hpad & Hbs & Hlower).
  { destruct (pad_block_shape_cases src tgt) as (Hup & _ & _ & Hdown).
    destruct (decide (length (shape src) < length (shape tgt))%nat).
    - eexists. split; [apply Hup; lia|]. split; [|lia].
      rewrite length_app, length_replicate. lia.
    - eexists. split; [apply Hdown; lia|]. done. }
  split; [by exists bs|].
  destruct (source_selection src (pad_block_shape src tgt)) as [sel|e]
    eqn:Hsel; cycle 1.
  { (* the selection arguments cannot be computed *)
    unfold VirtualMap__init__. rewrite Hsrc, Htgt. simpl.
    unfold create_simple.
    destruct (create_simple_error _ _ _) as [e0|]; simpl.
    - exists e0. by split.
    - rewrite Hsel. simpl. exists e. split; [done|].
      intros _ Hbounded.
      by rewrite source_selection_bounded in Hsel by done. }
  pose proof Hsel as Hblock. rewrite Hpad in Hblock.
  apply source_selection_block_length in Hblock as (b & Hb & Hlen_b).
  destruct (Hcheck {| ds_shape := shape src; ds_maxshape := maxshape src;
                      ds_selection := None |} sel b Hb) as [msg Hrefused].
  { simpl. lia. }
  destruct (VirtualMap_refused h5 vs vt dt src tgt sel _ Hsrc Htgt Hsel
              Hrefused) as (e & He & Hcls).
  exists e. split; [done|]. intros Hcreate _. by rewrite Hcls.
Qed.

Lemma unequal_ranks_are_rejected_witness :
  let vs := DatasetContainer__init__ VirtualSource "raw.h5" "data"
              [2; 3; 4] None in
  let vt := DatasetContainer__init__ VirtualTarget "vds.h5" "full"
              [5; 6] None in
  raises (VirtualMap__init__ argument_lengths_checked vs vt "uint16")
    ValueError
  ∧ pad_block_shape vs vt = Some [5; 6].
Proof.
  intros vs vt.
  destruct (unequal_ranks_are_rejected argument_lengths_checked vs vt
              "uint16" vs vt eq_refl eq_refl argument_lengths_checked_block)
    as ((bs & Hpad & _ & Hlower) & e & He & Hcls).
  - simpl. lia.
  - simpl. lia.
  - split.
    + destruct e as [c msg]. exists msg. rewrite He. do 2 f_equal.
      apply Hcls; [reflexivity|].
      simpl. rewrite !not_elem_of_cons. unfold UNLIMITED.
      repeat split; try lia. apply not_elem_of_nil.
    + rewrite Hpad. f_equal. apply Hlower. simpl. lia.
Defined.

(** Every map that is built, whatever h5py accepts, holds the two
    descriptors re-sliced with [...] and the given type; its source
    selection has one start, one stride and one count per slice of the
    source, every start is set, every stride is set and not zero, every
    count is 1 or unbounded, and the block of the selection is the block
    shape of the map. *)
Theorem virtual_map_selection_is_resolved (h5 : h5py) vs vt (dt : string)
    vm :
  VirtualMap__init__ h5 vs vt dt = Ok vm →
  __getitem__ vs (Args [KEllipsis]) = Ok (src vm)
  ∧ __getitem__ vt (Args [KEllipsis]) = Ok (target vm)
  ∧ group.dtype vm = dt
  ∧ ∃ sel,
      ds_selection (src_dspace vm) = Some sel
      ∧ let n := length (slice_list (src vm)) in
        length (hs_start sel) = n ∧ length (hs_stride sel) = n
        ∧ length (hs_count sel) = n
        ∧ Forall (λ v, is_Some v) (hs_start sel)
        ∧ Forall (λ v, ∃ s, v = Some s ∧ s ≠ 0) (hs_stride sel)
        ∧ Forall (λ c, c = 1 ∨ c = UNLIMITED) (hs_count sel)
        ∧ hs_block sel = block_shape vm.
Proof.
  unfold VirtualMap__init__.
  destruct (__getitem__ vs _) as [src|] eqn:Hsrc; simpl; [|done].
  destruct (__getitem__ vt _) as [tgt|] eqn:Htgt; simpl; [|done].
  unfold create_simple.
  destruct (create_simple_error _ _ _); simpl; [done|].
  destruct (source_selection src _) as [sel|] eqn:Hsel; simpl; [|done].
  unfold select_hyperslab.
  destruct (select_hyperslab_error _ _ _); simpl; [done|].
  intros [= <-]. simpl. do 3 (split; [done|]).
  exists sel. split; [done|].
  pose proof (getitem_slices_resolved _ _ _ Hsrc) as Hres.
  assert (Forall (λ v, is_Some v) (start <$> slice_list src)) as Hstart.
  { apply Forall_fmap. eapply Forall_impl; [exact Hres|].
    intros sl (a & b & s & -> & _). simpl. eauto. }
  assert (Forall (λ v, ∃ s, v = Some s ∧ s ≠ 0) (step <$> slice_list src))
    as Hstride.
  { apply Forall_fmap. eapply Forall_impl; [exact Hres|].
    intros sl (a & b & s & -> & Hs). simpl. eauto. }
  revert Hsel. unfold source_selection.
  destruct (any _) eqn:Hany.
  - destruct (tuple_index _ _) as [u|]; simpl; [|done].
    unfold list_setitem.
    destruct (pad_block_shape src tgt) as [bs|]; simpl;
      repeat case_decide; simpl; try done.
    intros [= <-]. simpl. rewrite !length_fmap, length_insert, length_replicate.
    repeat (split; [done|]). split; [|done].
    apply Forall_insert; [|by right].
    apply Forall_replicate. by left.
  - simpl. intros [= <-]. simpl. rewrite !length_fmap, length_replicate.
    repeat (split; [done|]). split; [|done].
    apply Forall_replicate. by left.
Qed.

Lemma virtual_map_selection_is_resolved_witness :
  ∃ vm,
    VirtualMap__init__ argument_lengths_checked
      (DatasetContainer__init__ VirtualSource "raw.h5" "data" [10; 10]
         (Some [None; Some 10]))
      (DatasetContainer__init__ VirtualTarget "vds.h5" "full" [10; 10] None)
      "uint16" = Ok vm
    ∧ group.dtype vm = "uint16"
    ∧ (hs_start <$> ds_selection (src_dspace vm)) = Some [Some 0; Some 0].
Proof.
  destruct (VirtualMap__init__ argument_lengths_checked
              (DatasetContainer__init__ VirtualSource "raw.h5" "data"
                 [10; 10] (Some [None; Some 10]))
              (DatasetContainer__init__ VirtualTarget "vds.h5" "full"
                 [10; 10] None)
              "uint16") as [vm|e] eqn:Hvm; [|discriminate Hvm].
  exists vm. split; [reflexivity|].
  destruct (virtual_map_selection_is_resolved _ _ _ _ _ Hvm)
    as (_ & _ & Hdt & _).
  split; [exact Hdt|].
  injection Hvm as <-. reflexivity.
Defined.

End virtual_map_edges.

(** * Further properties of reshapevdsgenerator.py *)

Section source_datasets.

Import reference.
Implicit Types self : ReshapeVDSGenerator.

Variable grab_metadata : string → SourceMeta.

Lemma sum_later_files (data : SourceMeta) (rest : list string) (total : Z) :
  Forall (λ file, frames (grab_metadata file) ≠ []) rest →
  let consistent file :=
    height (grab_metadata file) = height data
    ∧ width (grab_metadata file) = width data
    ∧ dtype (grab_metadata file) = dtype data in
  let loop :=
    foldlM (λ total dataset,
        let temp_data := grab_metadata dataset in
        n ← tuple_getitem (frames temp_data) 0;
        _ ← check_attributes data temp_data;
        mret (total + n)) total rest in
  (Forall consistent rest →
   loop = Ok (total
              + foldr Z.add 0 ((λ file, hd 0 (frames (grab_metadata file)))
                                 <$> rest)))
  ∧ (¬ Forall consistent rest →
     loop = Raise (Exn ValueError "Files have mismatched {}")).
Proof.
  intros Hframes consistent loop. subst loop.
  unfold tuple_getitem, check_attributes. revert total.
  induction Hframes as [|file rest Hfile _ IH]; intros total.
  - simpl. split.
    + intros _. unfold mret, res_ret. f_equal. lia.
    + intros Hnot. destruct Hnot. constructor.
  - cbn [foldlM].
    destruct (frames (grab_metadata file)) as [|n fs] eqn:Hfs; [done|].
    cbn [lookup list_lookup]. rewrite res_bind_Ok.
    destruct (decide (consistent file)) as [Hc|Hc].
    + rewrite bool_decide_eq_true_2 by exact Hc.
      unfold mret at 1, res_ret at 1. rewrite !res_bind_Ok.
      destruct (IH (total + n)) as [IHyes IHno]. split.
      * intros [_ Hrest]%Forall_cons.
        etrans; [exact (IHyes Hrest)|].
        f_equal. rewrite fmap_cons, Hfs. simpl. lia.
      * intros Hnot. refine (IHno _). intros Hrest. apply Hnot.
        by constructor.
    + rewrite bool_decide_eq_false_2 by exact Hc.
      rewrite !res_bind_Raise. split.
      * by intros [? _]%Forall_cons.
      * done.
Qed.

(** [process_source_datasets] over files whose [frames] tuples are not
    empty.  When every later file has the height, width and data type of
    the first file, it returns the metadata of the first file and sets
    [total_frames] to the sum of the frame counts of all files; otherwise
    it raises [ValueError]. *)
Theorem process_source_datasets_sums_and_checks self (file0 : string)
    (rest : list string) :
  files self = file0 :: rest →
  Forall (λ file, frames (grab_metadata file) ≠ []) (file0 :: rest) →
  let data := grab_metadata file0 in
  let consistent file :=
    height (grab_metadata file) = height data
    ∧ width (grab_metadata file) = width data
    ∧ dtype (grab_metadata file) = dtype data in
  (Forall consistent rest →
   process_source_datasets grab_metadata self
   = Ok ({| frames := frames data; height := height data;
            width := width data; dtype := dtype data |},
         set_total_frames self
           (foldr Z.add 0 ((λ file, hd 0 (frames (grab_metadata file)))
                             <$> file0 :: rest))))
  ∧ (¬ Forall consistent rest →
     process_source_datasets grab_metadata self
     = Raise (Exn ValueError "Files have mismatched {}")).
Proof.
  intros Hfiles [Hfirst Hrest]%Forall_cons data consistent.
  unfold process_source_datasets. rewrite Hfiles.
  change (tuple_getitem (file0 :: rest) 0) with (Ok file0).
  rewrite res_bind_Ok. cbv zeta. fold data.
  destruct (frames data) as [|first fs] eqn:Hfs; [done|].
  change (tuple_getitem (first :: fs) 0) with (Ok first).
  rewrite res_bind_Ok. change (tail (file0 :: rest)) with rest.
  destruct (sum_later_files data rest first Hrest) as [Hyes Hno].
  set (loop := foldlM _ _ _).
  split.
  - intros Hc. assert (loop = Ok _) as -> by exact (Hyes Hc).
    rewrite res_bind_Ok. unfold mret, res_ret. do 3 f_equal.
    rewrite fmap_cons. fold data. rewrite Hfs. done.
  - intros Hc. assert (loop = Raise _) as -> by exact (Hno Hc). done.
Qed.

End source_datasets.

Section source_dataset_examples.

Lemma process_source_datasets_sums_and_checks_witness :
  let grab_metadata := λ file : string,
    {| frames := if decide (file = "a.h5") then [2]
                 else if decide (file = "b.h5") then [3] else [5];
       height := 100; width := 200; dtype := "uint16" |} in
  let self := {| files := ["a.h5"; "b.h5"; "c.h5"]; source_node := "data";
                 total_frames := 0; periods := []; alternate := None;
                 dimensions := [10]; source_file := "a.h5" |} in
  process_source_datasets grab_metadata self
  = Ok ({| frames := [2]; height := 100; width := 200; dtype := "uint16" |},
        set_total_frames self 10).
Proof.
  intros grab_metadata self.
  apply (proj1 (process_source_datasets_sums_and_checks grab_metadata self
                  "a.h5" ["b.h5"; "c.h5"] eq_refl
                  ltac:(repeat constructor; done))).
  repeat constructor.
Defined.

End source_dataset_examples.

Section radices.

Import reference.
Implicit Types self : ReshapeVDSGenerator.

Lemma radices_of_lookup (inner : list Z) (k : nat) :
  (k ≤ length inner)%nat →
  radices_of inner !! k = Some (product (drop k inner)).
Proof.
  revert k. induction inner as [|a inner IH]; intros k Hk.
  - simpl in Hk. by replace k with 0%nat by lia.
  - rewrite radices_of_cons, hd_radices_of.
    destruct k as [|k]; simpl.
    + rewrite product_cons. f_equal. lia.
    + apply IH. simpl in Hk. lia.
Qed.

Lemma radices_of_length (inner : list Z) :
  length (radices_of inner) = S (length inner).
Proof.
  induction inner as [|a inner IH]; [done|].
  rewrite radices_of_cons. simpl. by rewrite IH.
Qed.

(** [create_mixed_radix_set] gives one radix per axis, or the single radix
    1 when there are no axes: the radix of axis [k] is the product of the
    lengths of the axes after [k], so the last radix is 1 and the length of
    the outermost axis is not used. *)
Theorem create_mixed_radix_set_is_product_of_inner_axes self :
  length (create_mixed_radix_set self)
  = S (length (tail (dimensions self)))
  ∧ ∀ k : nat,
      (k ≤ length (tail (dimensions self)))%nat →
      create_mixed_radix_set self !! k
      = Some (product (drop (S k) (dimensions self))).
Proof.
  unfold create_mixed_radix_set. fold (radices_of (tail (dimensions self))).
  split; [apply radices_of_length|].
  intros k Hk. rewrite radices_of_lookup by done.
  by destruct (dimensions self), k.
Qed.

End radices.

Section division.

Import reference.
Implicit Types self : ReshapeVDSGenerator.

Lemma radix_loop_divides (fuel : nat) (radices : list Z) :
  ∀ (frame_index : Z) (idx : nat) (axis_indices : list Z),
    Forall (λ r, 0 < r) radices →
    0 ≤ frame_index →
    frame_index ≤ Z.of_nat fuel →
    (idx + length radices ≤ length axis_indices)%nat →
    (∀ j, (idx ≤ j < length axis_indices)%nat → axis_indices !! j = Some 0) →
    ∃ rem,
      radix_loop fuel frame_index idx radices axis_indices
      = Return (rem, take idx axis_indices ++ digits frame_index radices
                     ++ drop (idx + length radices) axis_indices).
Proof.
  induction radices as [|r radices IH];
    intros frame_index idx axis_indices Hpos Hframe Hfuel Hlen Hzero.
  - exists frame_index. simpl. rewrite Nat.add_0_r, take_drop. done.
  - apply Forall_cons in Hpos as [Hr Hpos]. simpl in Hlen.
    cbn [radix_loop digits].
    rewrite (subtract_loop_div _ _ _ _ _ 0); [|lia|lia|..]; cycle 1.
    { pose proof (Z.div_le_upper_bound frame_index r frame_index Hr).
      assert (frame_index ≤ r * frame_index) by nia. lia. }
    { apply Hzero. lia. }
    rewrite Z.add_0_l.
    pose proof (Z.mod_pos_bound frame_index r Hr) as Hmod.
    pose proof (Z.mod_le frame_index r Hframe Hr) as Hmod_le.
    destruct (IH (frame_index `mod` r) (S idx)
                (<[idx := frame_index `div` r]> axis_indices))
      as (rem & Hloop); [done|lia|lia|..].
    { rewrite length_insert. lia. }
    { intros j Hj. rewrite length_insert in Hj.
      rewrite list_lookup_insert_ne by lia. apply Hzero. lia. }
    exists rem. cbn [mbind run_bind]. rewrite Hloop. do 2 f_equal.
    rewrite (take_S_r _ _ (frame_index `div` r))
      by (apply list_lookup_insert_eq; lia).
    rewrite take_insert_ge by lia.
    rewrite drop_insert_lt by lia.
    rewrite <- app_assoc. simpl.
    by replace (idx + S (length radices))%nat
      with (S idx + length radices)%nat by lia.
Qed.

(** The first loop of [calculate_axis_indices] divides: for positive
    radices, at most as many as there are axes, and a frame index that is
    not negative, the repeated subtraction ends within [frame_index] steps
    and leaves, axis by axis, the quotient by the radix of what the radices
    before it have left; the axes without radix stay 0.  There is no upper
    bound on the frame index: the first coordinate takes what exceeds the
    first radix. *)
Theorem repeated_subtraction_divides self (fuel : nat) (frame_index : Z)
    (radices : list Z) :
  Forall (λ r, 0 < r) radices →
  0 ≤ frame_index →
  (length radices ≤ length (dimensions self))%nat →
  (Z.to_nat frame_index ≤ fuel)%nat →
  ∃ rem,
    radix_loop fuel frame_index 0 radices ((λ _, 0) <$> dimensions self)
    = Return (rem,
              digits frame_index radices
              ++ replicate (length (dimensions self) - length radices) 0).
Proof.
  intros Hpos Hframe Hlen Hfuel.
  destruct (radix_loop_divides fuel radices frame_index 0
              ((λ _, 0) <$> dimensions self)) as (rem & Hloop);
    [done|done|lia|by rewrite length_fmap|..].
  { intros j Hj. rewrite length_fmap in Hj. rewrite list_lookup_fmap.
    destruct (lookup_lt_is_Some_2 (dimensions self) j) as [x ->]; [lia|done]. }
  exists rem. rewrite Hloop.
  change (take 0 ?l ++ ?k) with k. rewrite Nat.add_0_l.
  do 3 f_equal.
  rewrite <- fmap_drop.
  rewrite (const_fmap _ _ 0) by done.
  by rewrite length_drop.
Qed.

End division.

Section division_examples.

Import reference.

Lemma repeated_subtraction_divides_witness :
  let self := {| files := ["raw.h5"]; source_node := "data";
                 total_frames := 0; periods := []; alternate := None;
                 dimensions := [5; 3; 10]; source_file := "raw.h5" |} in
  ∃ rem,
    radix_loop 1000 1000 0 [30; 10; 1] [0; 0; 0] = Return (rem, [33; 1; 0]).
Proof.
  intros self.
  destruct (repeated_subtraction_divides self 1000 1000 [30; 10; 1])
    as (rem & Hloop).
  - repeat constructor.
  - lia.
  - simpl. lia.
  - lia.
  - exists rem. exact Hloop.
Defined.

End division_examples.

Section endless_loop.

Import reference.
Implicit Types self : ReshapeVDSGenerator.

Lemma subtract_loop_endless (fuel : nat) (frame_index radix : Z) (idx : nat)
    (axis_indices : list Z) :
  radix ≤ 0 → radix ≤ frame_index →
  (idx < length axis_indices)%nat →
  subtract_loop fuel frame_index radix idx axis_indices = OutOfFuel.
Proof.
  intros Hradix. revert frame_index axis_indices.
  induction fuel as [|fuel IH]; intros frame_index axis_indices Hframe Hidx;
    simpl; rewrite (proj2 (Z.leb_le _ _) Hframe); [done|].
  destruct (lookup_lt_is_Some_2 axis_indices idx Hidx) as [v Hv].
  unfold list_getitem, list_setitem. rewrite Hv. simpl.
  rewrite decide_True by done. simpl.
  apply IH; [lia|by rewrite length_insert].
Qed.

(** When the inner axes have a product that is zero or negative, as with an
    inner axis of length 0, the first radix is not positive and the
    [while] loop of [calculate_axis_indices] never ends for a frame index
    at or above it: no amount of fuel gives a result. *)
Theorem nonpositive_radix_never_terminates self (d0 : Z) (inner : list Z)
    (frame_index : Z) (shape : list Z) (fuel : nat) :
  dimensions self = d0 :: inner →
  product inner ≤ 0 →
  product inner ≤ frame_index →
  calculate_axis_indices fuel self frame_index (create_mixed_radix_set self)
    shape = OutOfFuel.
Proof.
  intros Hdims Hprod Hframe. unfold calculate_axis_indices.
  rewrite (create_mixed_radix_set_cons self d0 inner Hdims), Hdims.
  destruct inner as [|a inner].
  - change (product []) with 1 in Hprod. lia.
  - rewrite radices_of_cons, hd_radices_of.
    rewrite product_cons in Hprod, Hframe.
    cbn [radix_loop].
    rewrite subtract_loop_endless; [done|lia|lia|simpl; lia].
Qed.

Lemma nonpositive_radix_never_terminates_witness :
  let self := {| files := ["raw.h5"]; source_node := "data";
                 total_frames := 0; periods := [];
                 alternate := Some [false; false];
                 dimensions := [3; 0]; source_file := "raw.h5" |} in
  calculate_axis_indices 1000 self 0 (create_mixed_radix_set self)
    [3; 0; 100; 200] = OutOfFuel.
Proof.
  intros self.
  apply (nonpositive_radix_never_terminates self 3 [0] 0 [3; 0; 100; 200]
           1000 eq_refl).
  - reflexivity.
  - reflexivity.
Defined.

End endless_loop.

Section alternated_coordinates.

Import reference.
Implicit Types self : ReshapeVDSGenerator.

(** The returned coordinates determine the raw ones. *)
Lemma alternated_inj (alt : list bool) (shape raw raw' c : list Z) :
  alternated alt shape raw c → alternated alt shape raw' c →
  (length c ≤ length alt)%nat → (length c ≤ length shape)%nat →
  raw = raw'.
Proof.
  intros (Hlen & H0 & Hrule) (Hlen' & H0' & Hrule') Halt Hshape.
  apply list_eq. intros [|k]; [congruence|].
  destruct (decide (S k < length c)%nat) as [Hk|Hk]; cycle 1.
  { rewrite !lookup_ge_None_2 by lia. done. }
  destruct (lookup_lt_is_Some_2 raw (S k)) as [r Hr]; [lia|].
  destruct (lookup_lt_is_Some_2 raw' (S k)) as [r' Hr']; [lia|].
  destruct (lookup_lt_is_Some_2 shape (S k)) as [L HL]; [lia|].
  destruct (lookup_lt_is_Some_2 alt (S k)) as [a Ha]; [lia|].
  destruct (lookup_lt_is_Some_2 c k) as [p Hp]; [lia|].
  pose proof (Hrule k r L p a Hr HL Ha Hp) as Hc.
  pose proof (Hrule' k r' L p a Hr' HL Ha Hp) as Hc'.
  rewrite Hc in Hc'. rewrite Hr, Hr'. f_equal.
  destruct (a && negb (p `mod` 2 =? 0)); injection Hc'; lia.
Qed.

(** Inversion keeps coordinates within the axes it mirrors them on. *)
Lemma alternated_in_bounds (alt : list bool) (shape raw c dims : list Z) :
  alternated alt shape raw c →
  Forall2 (λ rk dk, 0 ≤ rk < dk) raw dims →
  take (length dims) shape = dims →
  (length dims ≤ length alt)%nat →
  Forall2 (λ ck dk, 0 ≤ ck < dk) c dims.
Proof.
  intros (Hlen & H0 & Hrule) Hraw Hshape Halt.
  pose proof (Forall2_length _ _ _ Hraw) as Hlen_raw.
  apply Forall2_same_length_lookup_2; [lia|].
  intros k ck dk Hck Hdk.
  assert (shape !! k = Some dk) as HL.
  { rewrite <- Hshape in Hdk. rewrite lookup_take_Some in Hdk. by destruct Hdk. }
  destruct (lookup_lt_is_Some_2 raw k) as [r Hr];
    [apply lookup_lt_Some in Hck; lia|].
  pose proof (Forall2_lookup_lr _ _ _ _ _ _ Hraw Hr Hdk) as Hbound.
  destruct k as [|k].
  - rewrite H0, Hr in Hck. injection Hck as <-. exact Hbound.
  - destruct (lookup_lt_is_Some_2 alt (S k)) as [a Ha];
      [apply lookup_lt_Some in Hdk; lia|].
    destruct (lookup_lt_is_Some_2 c k) as [p Hp];
      [apply lookup_lt_Some in Hck; lia|].
    rewrite (Hrule k r dk p a Hr HL Ha Hp) in Hck. injection Hck as <-.
    simpl in Hbound.
    destruct (a && negb (p `mod` 2 =? 0)); lia.
Qed.

(** [calculate_axis_indices] with the radices of the generator, for inner
    axes of positive length and a frame index from 0 below [d] times their
    product: the raw coordinates and the returned ones. *)
Lemma calculate_axis_indices_returns self (d0 d : Z) (inner : list Z)
    (alt : list bool) (shape : list Z) (frame_index : Z) (fuel : nat) :
  dimensions self = d0 :: inner →
  Forall (λ dk, 0 < dk) inner →
  alternate self = Some alt →
  (length (d0 :: inner) ≤ length alt)%nat →
  (length (d0 :: inner) ≤ length shape)%nat →
  0 ≤ frame_index < d * product inner →
  frame_index ≤ Z.of_nat fuel →
  ∃ raw c,
    Forall2 (λ rk dk, 0 ≤ rk < dk) raw (d :: inner)
    ∧ coords_to_linear raw (create_mixed_radix_set self) = frame_index
    ∧ calculate_axis_indices fuel self frame_index
        (create_mixed_radix_set self) shape = Return c
    ∧ alternated alt shape raw c.
Proof.
  intros Hdims Hpos Halt Hla Hls Hframe Hfuel.
  rewrite (create_mixed_radix_set_cons self d0 inner Hdims).
  unfold calculate_axis_indices. rewrite Hdims.
  destruct (radix_loop_digits fuel inner d frame_index 0
              ((λ _, 0) <$> d0 :: inner))
    as (raw & Hloop & Hbounds & Hlin); [done|done|done|..].
  { by rewrite length_fmap. }
  { intros j Hj. rewrite length_fmap in Hj. rewrite list_lookup_fmap.
    destruct (lookup_lt_is_Some_2 (d0 :: inner) j) as [x ->]; [lia|done]. }
  change (take 0 ?l ++ raw) with raw in Hloop.
  pose proof (Forall2_length _ _ _ Hbounds) as Hlen_raw.
  destruct (invert_loop_spec self shape alt (length inner) 1 raw)
    as (c & Hinv & Hlenc & Hkeep & Hrule);
    [done|lia|simpl in *; lia|simpl in *; lia|simpl in *; lia|].
  exists raw, c. split; [done|]. split; [done|]. split.
  - rewrite Hloop. cbn [mbind run_bind].
    change (length (d0 :: inner) - 1)%nat with (length inner - 0)%nat.
    by rewrite Nat.sub_0_r, Hinv.
  - split; [done|]. split; [apply Hkeep; lia|].
    intros k r L parent a Hr HL Ha Hparent.
    apply Hrule; try done.
    apply lookup_lt_Some in Hr. simpl in *. lia.
Qed.

(** With any alternation flags, two frame indices that are given the same
    coordinates are the same frame index: for inner axes of positive
    length, flags and shape that cover the axes, and frame indices that are
    not negative, [calculate_axis_indices] is injective, so no two frames
    are mapped to one place. *)
Theorem distinct_frames_get_distinct_coordinates self (d0 : Z)
    (inner : list Z) (alt : list bool) (shape : list Z) (i j : Z)
    (fuel : nat) :
  dimensions self = d0 :: inner →
  Forall (λ dk, 0 < dk) inner →
  alternate self = Some alt →
  (length (d0 :: inner) ≤ length alt)%nat →
  (length (d0 :: inner) ≤ length shape)%nat →
  0 ≤ i ≤ Z.of_nat fuel → 0 ≤ j ≤ Z.of_nat fuel →
  i ≠ j →
  calculate_axis_indices fuel self i (create_mixed_radix_set self) shape
  ≠ calculate_axis_indices fuel self j (create_mixed_radix_set self) shape.
Proof.
  intros Hdims Hpos Halt Hla Hls Hi Hj Hne Heq. apply Hne. clear Hne.
  pose proof (product_pos inner Hpos) as HP.
  destruct (calculate_axis_indices_returns self d0 (i `div` product inner + 1)
              inner alt shape i fuel)
    as (raw & c & Hb & Hlin & Hc & Halt_c); [done|done|done|done|done|..|lia|].
  { split; [lia|]. rewrite Z.mul_comm. apply Z.mul_succ_div_gt. lia. }
  destruct (calculate_axis_indices_returns self d0 (j `div` product inner + 1)
              inner alt shape j fuel)
    as (raw' & c' & Hb' & Hlin' & Hc' & Halt_c');
    [done|done|done|done|done|..|lia|].
  { split; [lia|]. rewrite Z.mul_comm. apply Z.mul_succ_div_gt. lia. }
  rewrite Hc, Hc' in Heq. injection Heq as <-.
  assert (raw = raw') as <-; [|congruence].
  pose proof (Forall2_length _ _ _ Hb) as Hlen.
  destruct Halt_c as (Hlenc & ?). simpl in *.
  eapply alternated_inj; [by split|done|lia|lia].
Qed.

Lemma distinct_frames_get_distinct_coordinates_witness :
  let self := {| files := ["raw.h5"]; source_node := "data";
                 total_frames := 0; periods := [];
                 alternate := Some [false; true];
                 dimensions := [3; 4]; source_file := "raw.h5" |} in
  calculate_axis_indices 12 self 4 (create_mixed_radix_set self)
    [3; 4; 100; 200]
  ≠ calculate_axis_indices 12 self 7 (create_mixed_radix_set self)
      [3; 4; 100; 200].
Proof.
  intros self.
  apply (distinct_frames_get_distinct_coordinates self 3 [4] [false; true]
           [3; 4; 100; 200] 4 7 12 eq_refl).
  - repeat constructor.
  - reflexivity.
  - simpl. lia.
  - simpl. lia.
  - lia.
  - lia.
  - lia.
Defined.

(** With any alternation flags, axes of positive length, a shape that
    starts with the dimensions and a frame index from 0 below their
    product, [calculate_axis_indices] returns within [frame_index]
    subtractions, and every coordinate it returns lies within its axis. *)
Theorem alternated_coordinates_stay_in_bounds self (alt : list bool)
    (shape : list Z) (frame_index : Z) (fuel : nat) :
  Forall (λ dk, 0 < dk) (dimensions self) →
  alternate self = Some alt →
  (length (dimensions self) ≤ length alt)%nat →
  take (length (dimensions self)) shape = dimensions self →
  0 ≤ frame_index < product (dimensions self) →
  (Z.to_nat frame_index ≤ fuel)%nat →
  ∃ c,
    calculate_axis_indices fuel self frame_index
      (create_mixed_radix_set self) shape = Return c
    ∧ Forall2 (λ ck dk, 0 ≤ ck < dk) c (dimensions self).
Proof.
  intros Hpos Halt Hla Hshape Hframe Hfuel.
  destruct (dimensions self) as [|d0 inner] eqn:Hdims.
  - change (product []) with 1 in Hframe.
    assert (frame_index = 0) as -> by lia.
    exists []. split; [|constructor].
    unfold calculate_axis_indices, create_mixed_radix_set. rewrite Hdims.
    by destruct fuel.
  - apply Forall_cons in Hpos as [Hd0 Hpos].
    rewrite product_cons in Hframe.
    destruct (calculate_axis_indices_returns self d0 d0 inner alt shape
                frame_index fuel)
      as (raw & c & Hb & _ & Hc & Halt_c); [done|done|done|done|..|done|lia|].
    { rewrite <- Hshape. rewrite length_take. lia. }
    exists c. split; [done|].
    by eapply alternated_in_bounds.
Qed.

Lemma alternated_coordinates_stay_in_bounds_witness :
  let self := {| files := ["raw.h5"]; source_node := "data";
                 total_frames := 0; periods := [];
                 alternate := Some [false; true; true];
                 dimensions := [2; 3; 4]; source_file := "raw.h5" |} in
  ∃ c,
    calculate_axis_indices 23 self 23 (create_mixed_radix_set self)
      [2; 3; 4; 100; 200] = Return c
    ∧ Forall2 (λ ck dk, 0 ≤ ck < dk) c [2; 3; 4].
Proof.
  intros self.
  apply (alternated_coordinates_stay_in_bounds self [false; true; true]
           [2; 3; 4; 100; 200] 23 23).
  - repeat constructor.
  - reflexivity.
  - simpl. lia.
  - reflexivity.
  - split; [lia|reflexivity].
  - lia.
Defined.

End alternated_coordinates.

Section alternation_rule.

Import reference.
Implicit Types self : ReshapeVDSGenerator.




End alternation_rule.

Section alternating_layout.

Import reference.
Implicit Types self : ReshapeVDSGenerator.

(** The loop of [create_alternating_virtual_layout] over frame indices
    that all have coordinates: one entry per frame index is added, in
    order. *)
Lemma alternating_loop_appends (fuel : nat) self (shape : list Z)
    (v_source : h5VirtualSource) (idxs : list Z) :
  ∀ v_layout : VirtualLayout,
    (∀ idx, idx ∈ idxs →
       ∃ c, calculate_axis_indices fuel self idx
              (create_mixed_radix_set self) shape = Return c) →
    ∃ entries,
      foldlM (λ v_layout idx,
          axis_indices ← calculate_axis_indices fuel self idx
                           (create_mixed_radix_set self) shape;
          let vds_hyperslab :=
            (KInt <$> axis_indices) ++ [FULL_SLICE; FULL_SLICE] in
          mret (layout_setitem v_layout vds_hyperslab
                  (source_getitem v_source [KInt idx])))
        v_layout idxs
      = Return {| vl_shape := vl_shape v_layout;
                  vl_dtype := vl_dtype v_layout;
                  vl_maps := vl_maps v_layout ++ entries |}
      ∧ length entries = length idxs
      ∧ ∀ (k : nat) (idx : Z),
          idxs !! k = Some idx →
          ∃ c,
            calculate_axis_indices fuel self idx
              (create_mixed_radix_set self) shape = Return c
            ∧ entries !! k
              = Some ((KInt <$> c) ++ [FULL_SLICE; FULL_SLICE],
                      source_getitem v_source [KInt idx]).
Proof.
  induction idxs as [|idx idxs IH]; intros v_layout Hall.
  - exists []. simpl. rewrite app_nil_r. split; [by destruct v_layout|].
    split; [done|]. intros k idx Hk. done.
  - destruct (Hall idx) as [c Hc]; [by left|].
    cbn [foldlM]. rewrite Hc. cbn [mbind run_bind mret run_ret].
    destruct (IH (layout_setitem v_layout
                    ((KInt <$> c) ++ [FULL_SLICE; FULL_SLICE])
                    (source_getitem v_source [KInt idx])))
      as (entries & Hloop & Hlen & Hentries).
    { intros idx' Hin. apply Hall. by right. }
    eexists (_ :: entries). split; [|split].
    + etrans; [exact Hloop|]. simpl. by rewrite <- app_assoc.
    + simpl. by rewrite Hlen.
    + intros [|k] idx' Hk; simpl in *.
      * injection Hk as <-. exists c. done.
      * by apply Hentries.
Qed.

(** [create_virtual_layout] with alternation flags: for axes of positive
    length, flags for every axis and a first file whose frame count is the
    product of the dimensions, it returns, given fuel for that many
    subtractions, a layout of shape dimensions + (height, width) with one
    mapping per frame, in frame order; the mapping of frame [k] takes frame
    [k] of the source to the coordinates of [k], which lie within the
    dimensions, followed by two full slices. *)
Theorem alternating_layout_maps_every_frame self (source_meta : SourceMeta)
    (alt : list bool) (fs : list Z) (fuel : nat) :
  Forall (λ dk, 0 < dk) (dimensions self) →
  alternate self = Some alt →
  (length (dimensions self) ≤ length alt)%nat →
  frames source_meta = product (dimensions self) :: fs →
  (Z.to_nat (product (dimensions self)) ≤ fuel)%nat →
  let vds_shape :=
    dimensions self ++ [height source_meta; width source_meta] in
  ∃ v_layout,
    create_virtual_layout fuel self source_meta = Return v_layout
    ∧ vl_shape v_layout = vds_shape
    ∧ vl_dtype v_layout = dtype source_meta
    ∧ length (vl_maps v_layout) = Z.to_nat (product (dimensions self))
    ∧ ∀ k : nat,
        Z.of_nat k < product (dimensions self) →
        ∃ c,
          calculate_axis_indices fuel self (Z.of_nat k)
            (create_mixed_radix_set self) vds_shape = Return c
          ∧ Forall2 (λ ck dk, 0 ≤ ck < dk) c (dimensions self)
          ∧ vl_maps v_layout !! k
            = Some ((KInt <$> c) ++ [FULL_SLICE; FULL_SLICE],
                    {| vs_path := source_file self;
                       vs_name := source_node self;
                       vs_shape := frames source_meta
                                   ++ [height source_meta; width source_meta];
                       vs_dtype := dtype source_meta;
                       vs_sel := Some [KInt (Z.of_nat k)] |}).
Proof.
  intros Hpos Halt Hla Hframes Hfuel vds_shape.
  assert (take (length (dimensions self)) vds_shape = dimensions self)
    as Hshape by (subst vds_shape; by rewrite take_app_length).
  assert (∀ idx, 0 ≤ idx < product (dimensions self) →
            ∃ c, calculate_axis_indices fuel self idx
                   (create_mixed_radix_set self) vds_shape = Return c
                 ∧ Forall2 (λ ck dk, 0 ≤ ck < dk) c (dimensions self))
    as Hcalc.
  { intros idx Hidx.
    destruct (dimensions self) as [|d0 inner] eqn:Hdims.
    - change (product []) with 1 in Hidx.
      assert (idx = 0) as -> by lia.
      exists []. split; [|constructor].
      unfold calculate_axis_indices, create_mixed_radix_set. rewrite Hdims.
      by destruct fuel.
    - apply Forall_cons in Hpos as [Hd0 Hpos].
      rewrite product_cons in Hidx, Hfuel.
      destruct (calculate_axis_indices_returns self d0 d0 inner alt vds_shape
                  idx fuel)
        as (raw & c & Hb & _ & Hc & Halt_c);
        [done|done|done|done|..|done|lia|].
      { rewrite <- Hshape. rewrite length_take. lia. }
      exists c. split; [done|].
      by eapply alternated_in_bounds. }
  unfold create_virtual_layout. rewrite Hframes.
  change (tuple_getitem (?x :: fs) 0) with (Ok x).
  cbn [lift mbind run_bind]. rewrite Z.eqb_refl. cbn [negb].
  rewrite Halt. fold vds_shape.
  unfold create_alternating_virtual_layout.
  match goal with
  | |- context [foldlM _ ?v _] =>
      destruct (alternating_loop_appends fuel self vds_shape
                  {| vs_path := source_file self;
                     vs_name := source_node self;
                     vs_shape := product (dimensions self) :: fs
                                 ++ [height source_meta; width source_meta];
                     vs_dtype := dtype source_meta;
                     vs_sel := None |}
                  (seqZ 0 (product (dimensions self))) v)
        as (entries & Hloop & Hlen & Hentries)
  end.
  { intros idx Hidx%elem_of_seqZ.
    destruct (Hcalc idx) as (c & Hc & _); [lia|]. eauto. }
  eexists. split; [exact Hloop|]. simpl.
  split; [done|]. split; [done|].
  split; [by rewrite Hlen, length_seqZ|].
  intros k Hk.
  destruct (Hentries k (Z.of_nat k)) as (c & Hc & Hk');
    [by rewrite lookup_seqZ_lt|].
  destruct (Hcalc (Z.of_nat k)) as (c' & Hc' & Hbounds); [lia|].
  rewrite Hc in Hc'. injection Hc' as <-.
  exists c. split; [done|]. split; [done|]. exact Hk'.
Qed.

End alternating_layout.

Section further_examples.

Import reference.

Lemma alternating_layout_maps_every_frame_witness :
  let self := {| files := ["raw.h5"]; source_node := "data";
                 total_frames := 4; periods := [];
                 alternate := Some [false; true];
                 dimensions := [2; 2]; source_file := "raw.h5" |} in
  let source_meta := {| frames := [4]; height := 100; width := 200;
                        dtype := "uint16" |} in
  ∃ v_layout,
    create_virtual_layout 4 self source_meta = Return v_layout
    ∧ vl_shape v_layout = [2; 2; 100; 200]
    ∧ length (vl_maps v_layout) = 4%nat.
Proof.
  intros self source_meta.
  destruct (alternating_layout_maps_every_frame self source_meta
              [false; true] [] 4)
    as (v_layout & Hlayout & Hshape & _ & Hlen & _).
  - repeat constructor.
  - reflexivity.
  - simpl. lia.
  - reflexivity.
  - reflexivity.
  - exists v_layout. split; [exact Hlayout|].
    split; [exact Hshape | exact Hlen].
Defined.

Lemma create_mixed_radix_set_is_product_of_inner_axes_witness :
  let self := {| files := ["raw.h5"]; source_node := "data";
                 total_frames := 0; periods := []; alternate := None;
                 dimensions := [5; 3; 10]; source_file := "raw.h5" |} in
  create_mixed_radix_set self !! 0%nat = Some 30
  ∧ create_mixed_radix_set self !! 2%nat = Some 1.
Proof.
  intros self. split.
  - apply (proj2 (create_mixed_radix_set_is_product_of_inner_axes self) 0%nat).
    simpl. lia.
  - apply (proj2 (create_mixed_radix_set_is_product_of_inner_axes self) 2%nat).
    simpl. lia.
Defined.

End further_examples.
